(** * Message utilities of langchain_core: filter, merge runs, trim

    A shallow embedding of [libs/core/langchain_core/messages/utils.py]:
    [convert_to_messages], [filter_messages], [merge_message_runs],
    [trim_messages] with its helpers [_first_n_tokens] and [_last_n_tokens],
    and the properties of them that the specification states. *)

From Stdlib Require Import ZArith Lia Ascii.
From stdpp Require Import base option list strings gmap.

(** ** Exceptions and fallible results *)

Inductive exn :=
| IndexError
| KeyError
| ValueError
| NotImplementedError
| ValidationError.

Inductive res (A : Type) :=
| Ok (a : A)
| Raise (e : exn).
Arguments Ok {A} a.
Arguments Raise {A} e.

Definition res_bind {A B} (r : res A) (k : A → res B) : res B :=
  match r with
  | Ok a => k a
  | Raise e => Raise e
  end.

Notation "'let*' x ':=' r 'in' k" := (res_bind r (fun x => k))
  (at level 10, x name, r at level 100, k at level 200).

Fixpoint res_map {A B} (f : A → res B) (l : list A) : res (list B) :=
  match l with
  | [] => Ok []
  | x :: l' =>
      let* y := f x in
      let* ys := res_map f l' in
      Ok (y :: ys)
  end.

(** ** The message classes

    The six message classes and their chunk counterparts, as
    [_MSG_CHUNK_MAP] pairs them.  A chunk class has the plain class of the
    same variant as its first parent, and every class derives from
    [BaseMessage]; every chunk class also from [BaseMessageChunk]. *)

Inductive variant := System | Human | AI | Tool | Function | Chat.

Global Instance variant_eq_dec : EqDecision variant.
Proof. solve_decision. Defined.

Inductive msg_class :=
| BaseMessageCls
| BaseMessageChunkCls
| MessageCls (v : variant)
| MessageChunkCls (v : variant).

Global Instance msg_class_eq_dec : EqDecision msg_class.
Proof. solve_decision. Defined.

(** Content blocks: a block is a string or a dict; content is a string or a
    list of blocks. *)
Inductive block :=
| BlockStr (s : string)
| BlockDict (d : gmap string string).

Global Instance block_eq_dec : EqDecision block.
Proof. solve_decision. Defined.

Inductive content_t :=
| ContentStr (s : string)
| ContentList (bs : list block).

Global Instance content_eq_dec : EqDecision content_t.
Proof. solve_decision. Defined.

Record BaseMessage := mkMessage {
  msg_variant : variant;
  msg_is_chunk : bool;
  msg_content : content_t;
  msg_name : option string;
  msg_id : option string;
  msg_role : option string;
  msg_tool_call_id : option string;
  msg_tool_calls : list (gmap string string);
  msg_additional_kwargs : gmap string string;
}.

Global Instance BaseMessage_eq_dec : EqDecision BaseMessage.
Proof. solve_decision. Defined.

(** [m.__class__] *)
Definition class_of (m : BaseMessage) : msg_class :=
  if msg_is_chunk m then MessageChunkCls (msg_variant m)
  else MessageCls (msg_variant m).

(** [isinstance(m, c)] *)
Definition isinstance (m : BaseMessage) (c : msg_class) : bool :=
  match c with
  | BaseMessageCls => true
  | BaseMessageChunkCls => msg_is_chunk m
  | MessageCls v => bool_decide (msg_variant m = v)
  | MessageChunkCls v => bool_decide (msg_variant m = v) && msg_is_chunk m
  end.

(** [isinstance(s, c)] for a string [s]: a [str] is an instance of no
    message class. *)
Definition isinstance_str (s : string) (c : msg_class) : bool := false.

(** [m.type]: the label of the class, the twelve labels that
    [_message_from_dict] dispatches on. *)
Definition plain_label (v : variant) : string :=
  match v with
  | Human => "human"
  | AI => "ai"
  | System => "system"
  | Chat => "chat"
  | Function => "function"
  | Tool => "tool"
  end.

Definition chunk_label (v : variant) : string :=
  match v with
  | AI => "AIMessageChunk"
  | Human => "HumanMessageChunk"
  | Function => "FunctionMessageChunk"
  | Tool => "ToolMessageChunk"
  | System => "SystemMessageChunk"
  | Chat => "ChatMessageChunk"
  end.

Definition msg_type (m : BaseMessage) : string :=
  if msg_is_chunk m then chunk_label (msg_variant m)
  else plain_label (msg_variant m).

(** [excluded.content = c] on a copy of the message *)
Definition set_content (m : BaseMessage) (c : content_t) : BaseMessage :=
  mkMessage (msg_variant m) (msg_is_chunk m) c (msg_name m) (msg_id m)
    (msg_role m) (msg_tool_call_id m) (msg_tool_calls m)
    (msg_additional_kwargs m).

(** [m.copy(deep=True)]: messages are values here *)
Definition deep_copy (m : BaseMessage) : BaseMessage := m.

(** ** The constructors of the message classes *)

(** The keyword arguments of a message constructor. *)
Record message_fields := mkFields {
  f_content : content_t;
  f_name : option string;
  f_id : option string;
  f_role : option string;
  f_tool_call_id : option string;
  f_tool_calls : list (gmap string string);
  f_additional_kwargs : gmap string string;
}.

Definition fields_of (m : BaseMessage) : message_fields :=
  mkFields (msg_content m) (msg_name m) (msg_id m) (msg_role m)
    (msg_tool_call_id m) (msg_tool_calls m) (msg_additional_kwargs m).

(** The fields that a class requires: a function message its name, a tool
    message its tool_call_id, a chat message its role. *)
Definition required_fields_given (v : variant) (data : message_fields)
    : bool :=
  match v with
  | Function => bool_decide (is_Some (f_name data))
  | Tool => bool_decide (is_Some (f_tool_call_id data))
  | Chat => bool_decide (is_Some (f_role data))
  | Human | AI | System => true
  end.

(** The call of the constructor of the plain or chunk class of variant [v]
    on the keyword arguments [data].  The classes are defined outside this
    module; of their validation this keeps that a missing required field is
    refused, and that an AI chunk takes its tool calls from its tool call
    chunks, of which the keyword arguments here have none. *)
Definition construct (v : variant) (chunk : bool) (data : message_fields)
    : res BaseMessage :=
  if required_fields_given v data then
    Ok (mkMessage v chunk (f_content data) (f_name data) (f_id data)
          (f_role data) (f_tool_call_id data)
          (if chunk && bool_decide (v = AI) then [] else f_tool_calls data)
          (f_additional_kwargs data))
  else Raise ValidationError.

(** ** Message-like inputs and their normalisation *)

(** A dict input by its keys: the keys [_convert_to_message] and
    [_create_message_from_message_type] read, and the remaining keys. *)
Record message_dict := mkDict {
  d_role : option string;
  d_type : option string;
  d_content : option content_t;
  d_name : option string;
  d_tool_call_id : option string;
  d_tool_calls : option (list (gmap string string));
  d_id : option string;
  d_extra : gmap string string;
}.

Inductive MessageLikeRepresentation :=
| LikeMessage (m : BaseMessage)
| LikeStr (s : string)
| LikeSeq (l : list string)
| LikeDict (d : message_dict).

Definition _create_message_from_message_type
    (message_type : string) (content : content_t)
    (name tool_call_id : option string)
    (tool_calls : option (list (gmap string string)))
    (id : option string) (additional_kwargs : gmap string string)
    : res BaseMessage :=
  let build v :=
    construct v false
      (mkFields content name id None tool_call_id (default [] tool_calls)
         additional_kwargs) in
  if bool_decide (message_type ∈ ["human"; "user"]) then build Human
  else if bool_decide (message_type ∈ ["ai"; "assistant"]) then build AI
  else if bool_decide (message_type = "system") then build System
  else if bool_decide (message_type = "function") then build Function
  else if bool_decide (message_type = "tool") then build Tool
  else Raise ValueError.

Definition _convert_to_message (message : MessageLikeRepresentation)
    : res BaseMessage :=
  match message with
  | LikeMessage m => Ok m
  | LikeStr s =>
      _create_message_from_message_type "human" (ContentStr s)
        None None None None ∅
  | LikeSeq [message_type_str; template] =>
      _create_message_from_message_type message_type_str (ContentStr template)
        None None None None ∅
  | LikeSeq _ => Raise NotImplementedError
  | LikeDict d =>
      (* pop "role", else pop "type"; a "type" left beside a "role" stays
         among the keyword arguments *)
      let popped :=
        match d_role d, d_type d with
        | Some r, Some t => Some (r, <["type" := t]> (d_extra d))
        | Some r, None => Some (r, d_extra d)
        | None, Some t => Some (t, d_extra d)
        | None, None => None
        end in
      match popped, d_content d with
      | Some (msg_type, kwargs), Some msg_content =>
          _create_message_from_message_type msg_type msg_content
            (d_name d) (d_tool_call_id d) (d_tool_calls d) (d_id d) kwargs
      | _, _ => Raise ValueError
      end
  end.

Definition convert_to_messages (messages : list MessageLikeRepresentation)
    : res (list BaseMessage) :=
  res_map _convert_to_message messages.

(** ** filter_messages *)

(** An entry of [incl_types] / [excl_types], [end_on] / [start_on]:
    a string label or a message class. *)
Inductive type_spec :=
| TypeLabel (s : string)
| TypeClass (c : msg_class).

(** [[t for t in (types or ()) if isinstance(t, str)]] *)
Definition types_str (types : option (list type_spec)) : list string :=
  omap (fun t => match t with TypeLabel s => Some s | TypeClass _ => None end)
    (default [] types).

(** [tuple(t for t in (types or ()) if isinstance(t, type))] *)
Definition types_types (types : option (list type_spec)) : list msg_class :=
  omap (fun t => match t with TypeClass c => Some c | TypeLabel _ => None end)
    (default [] types).

(** [seq and x in seq] for an optional sequence of strings and an optional
    string [x]: [None] and the empty sequence are falsy, and [None] is in
    no sequence of strings. *)
Definition opt_in (x : option string) (seq : option (list string)) : bool :=
  match seq, x with
  | Some l, Some s => bool_decide (s ∈ l)
  | _, _ => false
  end.

Definition excluded (excl_names : option (list string))
    (excl_types : option (list type_spec)) (excl_ids : option (list string))
    (msg : BaseMessage) : bool :=
  let excl_types_str := types_str excl_types in
  let excl_types_types := types_types excl_types in
  if opt_in (msg_name msg) excl_names then true
  else if bool_decide (msg_type msg ∈ excl_types_str) then true
  else if existsb (isinstance_str (msg_type msg)) excl_types_types then true
  else if opt_in (msg_id msg) excl_ids then true
  else false.

Definition included (incl_names : option (list string))
    (incl_types : option (list type_spec)) (incl_ids : option (list string))
    (msg : BaseMessage) : bool :=
  let incl_types_str := types_str incl_types in
  let incl_types_types := types_types incl_types in
  if opt_in (msg_name msg) incl_names then true
  else if bool_decide (msg_type msg ∈ incl_types_str) then true
  else if existsb (isinstance msg) incl_types_types then true
  else if opt_in (msg_id msg) incl_ids then true
  else false.

Definition filter_messages (messages : list MessageLikeRepresentation)
    (incl_names excl_names : option (list string))
    (incl_types excl_types : option (list type_spec))
    (incl_ids excl_ids : option (list string)) : res (list BaseMessage) :=
  let* messages := convert_to_messages messages in
  Ok (List.filter
        (fun msg =>
           if excluded excl_names excl_types excl_ids msg then false
           else included incl_names incl_types incl_ids msg)
        messages).

(** ** Python slices and indexing used by the trimmer *)

(** [xs[i]] for an integer [i], negative indices counting from the end *)
Definition py_index {A} (xs : list A) (i : Z) : res A :=
  let n := Z.of_nat (length xs) in
  let j := if bool_decide (i < 0)%Z then (i + n)%Z else i in
  if bool_decide (0 ≤ j < n)%Z then
    match xs !! Z.to_nat j with
    | Some x => Ok x
    | None => Raise IndexError
    end
  else Raise IndexError.

(** [xs[:-i]] for [1 <= i] *)
Definition slice_to_neg {A} (xs : list A) (i : nat) : list A :=
  take (length xs - i) xs.

(** [xs[1::-1]]: from index 1 (or the last index, if smaller) down to
    index 0 *)
Definition slice_1_down {A} (xs : list A) : list A :=
  reverse (take 2 xs).

(** ** trim_messages *)

(** The token counter counts one message or a list of messages; which one
    is read off the annotation of its first parameter. *)
Inductive token_counter_t :=
| CountMessage (f : BaseMessage → Z)
| CountList (f : list BaseMessage → Z).

Definition list_token_counter (token_counter : token_counter_t)
    : list BaseMessage → Z :=
  match token_counter with
  | CountMessage f => fun messages => foldl Z.add 0%Z (f <$> messages)
  | CountList f => f
  end.

(** [end_on] / [start_on]: declared as a sequence of labels and classes;
    a caller may pass a single label or a single class. *)
Inductive boundary_arg :=
| BoundStr (s : string)
| BoundType (c : msg_class)
| BoundSeq (l : list type_spec).

Definition boundary_truthy (b : option boundary_arg) : bool :=
  match b with
  | None => false
  | Some (BoundStr s) => negb (bool_decide (s = ""))
  | Some (BoundType _) => true
  | Some (BoundSeq l) => negb (bool_decide (l = []))
  end.

Fixpoint split_on (sep : Ascii.ascii) (text : string) : list string :=
  match text with
  | EmptyString => [EmptyString]
  | String c rest =>
      if bool_decide (c = sep) then EmptyString :: split_on sep rest
      else match split_on sep rest with
           | [] => [String c EmptyString]
           | w :: ws => String c w :: ws
           end
  end.

(** [text.split("\n")] *)
Definition _default_text_splitter (text : string) : list string :=
  split_on "010"%char text.

Definition fits (token_counter : list BaseMessage → Z) (n_tokens : Z)
    (messages : list BaseMessage) : bool :=
  bool_decide (token_counter messages ≤ n_tokens)%Z.

(** The loop of lines 483-486: the first [i] in [range(len(messages))]
    whose candidate fits gives [idx = len(messages) - i]; [idx] stays 0
    when there is none. *)
Definition search_idx (token_counter : list BaseMessage → Z) (n_tokens : Z)
    (messages : list BaseMessage) : nat :=
  match
    List.find
      (fun i =>
         fits token_counter n_tokens
           (if bool_decide (i = 0) then messages else slice_to_neg messages i))
      (seq 0 (length messages))
  with
  | Some i => length messages - i
  | None => 0
  end.

(** The loops of lines 493-499 and 521-526: each round drops the last
    block of [excluded] and tests [messages[:idx] + [excluded]]; the first
    fit is taken. *)
Fixpoint drop_loop (token_counter : list BaseMessage → Z) (n_tokens : Z)
    (pre : list BaseMessage) (excluded : BaseMessage) (blocks : list block)
    (rounds : nat) : option BaseMessage :=
  match rounds with
  | 0 => None
  | S rounds' =>
      let blocks' := take (length blocks - 1) blocks in
      let excluded' := set_content excluded (ContentList blocks') in
      if fits token_counter n_tokens (pre ++ [excluded']) then Some excluded'
      else drop_loop token_counter n_tokens pre excluded' blocks' rounds'
  end.

(** The first block that is a string or has ["type"] equal to ["text"];
    looking up ["type"] in a dict block without it raises. *)
Fixpoint first_text_block (blocks : list block) : res (option block) :=
  match blocks with
  | [] => Ok None
  | BlockStr s :: _ => Ok (Some (BlockStr s))
  | BlockDict d :: rest =>
      match d !! "type" with
      | None => Raise KeyError
      | Some t =>
          if bool_decide (t = "text") then Ok (Some (BlockDict d))
          else first_text_block rest
      end
  end.

(** Lines 501-517: the text to split, if any *)
Definition boundary_text (c : content_t) : res (option string) :=
  match c with
  | ContentList blocks =>
      let* text_block := first_text_block blocks in
      match text_block with
      | Some (BlockDict d) =>
          match d !! "text" with
          | Some t => Ok (Some t)
          | None => Raise KeyError
          end
      | Some (BlockStr s) => Ok (Some s)
      | None => Ok None
      end
  | ContentStr s => Ok (Some s)
  end.

Definition text_block (t : string) : block :=
  BlockDict {[ "type" := "text"; "text" := t ]}.

(** Lines 489-526, entered when [idx < len(messages) - 1 and allow_partial]:
    the new [messages] and [idx]. *)
Definition include_partial (token_counter : list BaseMessage → Z)
    (n_tokens : Z) (text_splitter : string → list string)
    (messages : list BaseMessage) (idx : nat)
    : res (list BaseMessage * nat) :=
  let* boundary := py_index messages (Z.of_nat idx) in
  let pre := take idx messages in
  let block_fit :=
    match msg_content boundary with
    | ContentList blocks =>
        drop_loop token_counter n_tokens pre (deep_copy boundary) blocks
          (length blocks - 1)
    | ContentStr _ => None
    end in
  match block_fit with
  | Some excluded => Ok (pre ++ [excluded], S idx)
  | None =>
      let* text := boundary_text (msg_content boundary) in
      match text with
      | Some (String c t) =>
          let split_texts := text_splitter (String c t) in
          match
            drop_loop token_counter n_tokens pre (deep_copy boundary)
              (text_block <$> split_texts) (length split_texts - 1)
          with
          | Some excluded => Ok (pre ++ [excluded], S idx)
          | None => Ok (messages, idx)
          end
      | _ => Ok (messages, idx)
      end
  end.

(** Lines 528-533: [while not matches(messages[idx - 1]) and idx > 0];
    the message is read before [idx > 0] is tested. *)
Fixpoint end_on_walk (matches : BaseMessage → bool)
    (messages : list BaseMessage) (idx : nat) {struct idx} : res nat :=
  let* m := py_index messages (Z.of_nat idx - 1) in
  if negb (matches m) && bool_decide (0 < idx) then
    match idx with
    | 0 => Ok idx
    | S idx' => end_on_walk matches messages idx'
    end
  else Ok idx.

(** Lines 528-535: the walk runs when [end_on] is a string or a class, and
    nothing is done otherwise. *)
Definition align_end_on (end_on : option boundary_arg)
    (messages : list BaseMessage) (idx : nat) : res nat :=
  match end_on with
  | Some (BoundStr label) =>
      end_on_walk (fun m => bool_decide (msg_type m = label)) messages idx
  | Some (BoundType c) =>
      end_on_walk (fun m => isinstance m c) messages idx
  | _ => Ok idx
  end.

Definition _first_n_tokens (messages : list BaseMessage) (n_tokens : Z)
    (token_counter : list BaseMessage → Z) (allow_partial : bool)
    (end_on : option boundary_arg)
    (text_splitter : option (string → list string))
    : res (list BaseMessage) :=
  let text_splitter := default _default_text_splitter text_splitter in
  let idx := search_idx token_counter n_tokens messages in
  let* partial :=
    if bool_decide (Z.of_nat idx < Z.of_nat (length messages) - 1)%Z
       && allow_partial
    then include_partial token_counter n_tokens text_splitter messages idx
    else Ok (messages, idx) in
  let '(messages, idx) := partial in
  let* idx := align_end_on end_on messages idx in
  Ok (take idx messages).

(** Line 550: [keep_system and isinstance(messages[0], SystemMessage)];
    the first message is read only when [keep_system] is set. *)
Definition swapped_system_of (keep_system : bool)
    (messages : list BaseMessage) : res bool :=
  if keep_system then
    let* first := py_index messages 0 in
    Ok (isinstance first (MessageCls System))
  else Ok false.

Definition _last_n_tokens (messages : list BaseMessage) (n_tokens : Z)
    (token_counter : list BaseMessage → Z) (allow_partial keep_system : bool)
    (start_on : option boundary_arg) : res (list BaseMessage) :=
  let* swapped_system := swapped_system_of keep_system messages in
  let reversed_ :=
    if swapped_system : bool then take 1 messages ++ slice_1_down messages
    else reverse messages in
  let* reversed_ :=
    _first_n_tokens reversed_ n_tokens token_counter allow_partial start_on
      None in
  if swapped_system then Ok (take 1 reversed_ ++ slice_1_down reversed_)
  else Ok (reverse reversed_).

Definition trim_messages (messages : list MessageLikeRepresentation)
    (n_tokens : Z) (token_counter : token_counter_t) (strategy : string)
    (allow_partial : bool) (end_on start_on : option boundary_arg)
    (keep_system : bool) : res (list BaseMessage) :=
  if boundary_truthy end_on && bool_decide (strategy = "last") then
    Raise ValueError
  else if boundary_truthy start_on && bool_decide (strategy = "first") then
    Raise ValueError
  else if keep_system && bool_decide (strategy = "first") then
    Raise ValueError
  else
    let* messages := convert_to_messages messages in
    let list_token_counter := list_token_counter token_counter in
    if bool_decide (strategy = "first") then
      _first_n_tokens messages n_tokens list_token_counter allow_partial
        end_on None
    else if bool_decide (strategy = "last") then
      _last_n_tokens messages n_tokens list_token_counter allow_partial
        keep_system start_on
    else Raise ValueError.

(** ** merge_message_runs *)

Definition _MSG_CHUNK_MAP : list (msg_class * msg_class) :=
  [ (MessageCls Human, MessageChunkCls Human);
    (MessageCls AI, MessageChunkCls AI);
    (MessageCls System, MessageChunkCls System);
    (MessageCls Tool, MessageChunkCls Tool);
    (MessageCls Function, MessageChunkCls Function);
    (MessageCls Chat, MessageChunkCls Chat) ].

Definition _CHUNK_MSG_MAP : list (msg_class * msg_class) :=
  (fun kv => (kv.2, kv.1)) <$> _MSG_CHUNK_MAP.

(** An instance of the class [cls] built from the fields of [m] other than
    its type label; only the twelve concrete classes are instantiated.  The
    fields are those of an instance, which its own constructor has checked.
    An AI chunk takes its tool calls from its tool call chunks: a chunk
    passes them on, a plain AI message has none to pass, and the chunk made
    of it has no tool calls. *)
Definition instantiate (cls : msg_class) (m : BaseMessage) : res BaseMessage :=
  let build v chunk tool_calls :=
    Ok (mkMessage v chunk (msg_content m) (msg_name m) (msg_id m)
          (msg_role m) (msg_tool_call_id m) tool_calls
          (msg_additional_kwargs m)) in
  match cls with
  | MessageCls v => build v false (msg_tool_calls m)
  | MessageChunkCls v =>
      build v true
        (if bool_decide (v = AI) && negb (msg_is_chunk m) then []
         else msg_tool_calls m)
  | BaseMessageCls | BaseMessageChunkCls => Raise ValueError
  end.

(** The two lookups shared by [_msg_to_chunk] and [_chunk_to_msg]: the
    class of the message itself first, then the first entry of the table
    that the message is an instance of. *)
Definition convert_by (table : list (msg_class * msg_class))
    (m : BaseMessage) : res BaseMessage :=
  match List.find (fun kv => bool_decide (kv.1 = class_of m)) table with
  | Some kv => instantiate kv.2 m
  | None =>
      match List.find (fun kv => isinstance m kv.1) table with
      | Some kv => instantiate kv.2 m
      | None => Raise ValueError
      end
  end.

Definition _msg_to_chunk (message : BaseMessage) : res BaseMessage :=
  convert_by _MSG_CHUNK_MAP message.

Definition _chunk_to_msg (chunk : BaseMessage) : res BaseMessage :=
  convert_by _CHUNK_MSG_MAP chunk.

Section merge.
(** [chunk_a + chunk_b], the merge operation of the chunk classes; it is
    defined with the message classes, outside this module. *)
Variable chunk_add : BaseMessage → BaseMessage → res BaseMessage.

(** One round of the loop of lines 371-377. *)
Definition merge_step (merged : list BaseMessage) (msg : BaseMessage)
    : res (list BaseMessage) :=
  let curr := deep_copy msg in
  match last merged with
  | None => Raise IndexError
  | Some last_ =>
      let merged := take (length merged - 1) merged in
      if negb (isinstance curr (class_of last_)) then
        Ok (merged ++ [last_; curr])
      else
        let* a := _msg_to_chunk last_ in
        let* b := _msg_to_chunk curr in
        let* sum := chunk_add a b in
        let* m := _chunk_to_msg sum in
        Ok (merged ++ [m])
  end.

Fixpoint merge_loop (merged : list BaseMessage) (rest : list BaseMessage)
    : res (list BaseMessage) :=
  match rest with
  | [] => Ok merged
  | msg :: rest' =>
      let* merged' := merge_step merged msg in
      merge_loop merged' rest'
  end.

Definition merge_message_runs (messages : list MessageLikeRepresentation)
    : res (list BaseMessage) :=
  match messages with
  | [] => Ok []
  | _ =>
      let* messages := convert_to_messages messages in
      match messages with
      | [] => Raise IndexError
      | first :: rest => merge_loop [deep_copy first] rest
      end
  end.
End merge.

(** Two neighbouring blocks of the same text type as one block: two
    strings, or two dict blocks of type ["text"]. *)
Definition combine_text (x y : block) : option block :=
  match x, y with
  | BlockStr s, BlockStr t => Some (BlockStr (s +:+ t))
  | BlockDict d, BlockDict e =>
      if bool_decide (d !! "type" = Some "text")
         && bool_decide (e !! "type" = Some "text")
      then
        match d !! "text", e !! "text" with
        | Some s, Some t => Some (BlockDict (<["text" := s +:+ t]> d))
        | _, _ => None
        end
      else None
  | _, _ => None
  end.

(** The concatenation of two block lists, the last block of the first and
    the first block of the second combined when they are text of one type. *)
Definition concat_blocks (bs cs : list block) : list block :=
  match last bs, cs with
  | Some x, y :: cs' =>
      match combine_text x y with
      | Some z => take (length bs - 1) bs ++ z :: cs'
      | None => bs ++ cs
      end
  | _, _ => bs ++ cs
  end.

(** Modelled from the spec: the merge operation of chunks; the class
    hierarchy that defines it is not part of this module.  Content is
    concatenated: two strings as strings, block lists as lists with
    adjacent text blocks of the same type combined, a string counting as a
    list of one string block beside a block list.  The names must match
    unless one is absent; the id is that of the left operand when it has
    one; the other fields are concatenated or united. *)
Definition concat_chunks (a b : BaseMessage) : res BaseMessage :=
  let content :=
    match msg_content a, msg_content b with
    | ContentStr s, ContentStr t => ContentStr (s +:+ t)
    | ContentStr s, ContentList bs => ContentList (concat_blocks [BlockStr s] bs)
    | ContentList bs, ContentStr t => ContentList (concat_blocks bs [BlockStr t])
    | ContentList bs, ContentList cs => ContentList (concat_blocks bs cs)
    end in
  let* name :=
    match msg_name a, msg_name b with
    | Some x, Some y => if bool_decide (x = y) then Ok (Some x) else Raise ValueError
    | Some x, None => Ok (Some x)
    | None, y => Ok y
    end in
  Ok (mkMessage (msg_variant a) (msg_is_chunk a) content name
        (from_option Some (msg_id b) (msg_id a))
        (msg_role a) (msg_tool_call_id a)
        (msg_tool_calls a ++ msg_tool_calls b)
        (msg_additional_kwargs a ∪ msg_additional_kwargs b)).

(** ** Statements of the specification *)

(** [e] is [orig] with its content rewritten. *)
Definition content_rewrite (orig e : BaseMessage) : Prop :=
  ∃ c, e = set_content orig c.

(** The block list that partial truncation shortens: the blocks of the
    message, or the text blocks made of the split text. *)
Definition truncation_source (text_splitter : string → list string)
    (orig : BaseMessage) (full : list block) : Prop :=
  msg_content orig = ContentList full
  ∨ ∃ c t, boundary_text (msg_content orig) = Ok (Some (String c t))
           ∧ full = text_block <$> text_splitter (String c t).

(** [e] is a truncated copy of [orig]: its content is a non-empty strict
    prefix of the block list that was shortened. *)
Definition truncated_of (text_splitter : string → list string)
    (orig e : BaseMessage) : Prop :=
  ∃ full j, truncation_source text_splitter orig full
            ∧ 0 < j < length full
            ∧ e = set_content orig (ContentList (take j full)).

(** The shape of what [_first_n_tokens] returns: a prefix of [ms], or a
    prefix followed by a truncated copy of the next message. *)
Definition partial_prefix (text_splitter : string → list string)
    (ms out : list BaseMessage) : Prop :=
  (∃ k, k ≤ length ms ∧ out = take k ms)
  ∨ ∃ k orig e, ms !! k = Some orig ∧ truncated_of text_splitter orig e
                ∧ out = take k ms ++ [e].

(** [m] matches the boundary type [b], by label or by class. *)
Definition matches_boundary (b : boundary_arg) (m : BaseMessage) : Prop :=
  match b with
  | BoundStr label => msg_type m = label
  | BoundType c => isinstance m c = true
  | BoundSeq l =>
      ∃ t, t ∈ l ∧ match t with
                   | TypeLabel label => msg_type m = label
                   | TypeClass c => isinstance m c = true
                   end
  end.

(** A contiguous prefix of [ms], the message after it possibly appended
    with its content rewritten. *)
Definition trimmed_prefix (ms out : list BaseMessage) : Prop :=
  (∃ k, out = take k ms)
  ∨ ∃ k orig e, ms !! k = Some orig ∧ content_rewrite orig e
                ∧ out = take k ms ++ [e].

(** A contiguous suffix of [ms], the message before it possibly prepended
    with its content rewritten. *)
Definition trimmed_suffix (ms out : list BaseMessage) : Prop :=
  (∃ k, out = drop k ms)
  ∨ ∃ k orig e, ms !! k = Some orig ∧ content_rewrite orig e
                ∧ out = e :: drop (S k) ms.

(** No message is an instance of the class of the message before it: no
    two neighbours that [merge_message_runs] would combine. *)
Fixpoint no_adjacent_run (l : list BaseMessage) : Prop :=
  match l with
  | a :: tl =>
      match tl with
      | b :: _ => isinstance b (class_of a) = false
      | [] => True
      end ∧ no_adjacent_run tl
  | [] => True
  end.

(** [k] is the largest index whose prefix the counter accepts, with
    [k = 0] permitted whether or not the counter accepts the empty prefix. *)
Definition largest_fitting_prefix (count : list BaseMessage → Z) (n : Z)
    (ms : list BaseMessage) (k : nat) : Prop :=
  k ≤ length ms
  ∧ (k = 0 ∨ (count (take k ms) ≤ n)%Z)
  ∧ ∀ j, k < j ≤ length ms → (n < count (take j ms))%Z.

(** ** Example data *)

(** A whole-list counter that charges ten tokens for a single message and
    nothing for any other list. *)
Definition lone_count (l : list BaseMessage) : Z :=
  if bool_decide (length l = 1) then 10%Z else 0%Z.

Definition lone_cost : token_counter_t := CountList lone_count.

(** A whole-list counter that charges one token for every list. *)
Definition always_one : token_counter_t := CountList (fun _ => 1%Z).


Definition text_message (v : variant) (s : string) : BaseMessage :=
  mkMessage v false (ContentStr s) None None None None [] ∅.

Definition block_message (v : variant) (bs : list block) : BaseMessage :=
  mkMessage v false (ContentList bs) None None None None [] ∅.

Definition unit_cost : token_counter_t := CountMessage (fun _ => 1%Z).

(** One token per character of string content, one per content block. *)
Definition size_cost : token_counter_t :=
  CountMessage (fun m =>
    match msg_content m with
    | ContentStr s => Z.of_nat (String.length s)
    | ContentList bs => Z.of_nat (length bs)
    end).

(** One token per character of text, in string content and in the
    ["text"] of content blocks. *)
Definition char_cost : token_counter_t :=
  CountMessage (fun m =>
    match msg_content m with
    | ContentStr s => Z.of_nat (String.length s)
    | ContentList bs =>
        foldl Z.add 0%Z
          ((fun b =>
              match b with
              | BlockStr s => Z.of_nat (String.length s)
              | BlockDict d => Z.of_nat (String.length (default "" (d !! "text")))
              end) <$> bs)
    end).

Definition sys_s : BaseMessage := text_message System "s".
Definition human_a : BaseMessage := text_message Human "a".
Definition human_b : BaseMessage := text_message Human "b".
Definition human_c : BaseMessage := text_message Human "c".
Definition ai_c : BaseMessage := text_message AI "c".
Definition conversation : list BaseMessage :=
  [sys_s; human_a; human_b; human_c].

Definition aaaa_message : BaseMessage :=
  block_message Human [text_block "aaaa"].

Definition three_blocks : BaseMessage :=
  block_message Human [text_block "aaaa"; text_block "bb"; text_block "c"].

Definition two_blocks : BaseMessage :=
  block_message Human [text_block "aaaa"; text_block "bb"].

Definition human_ab : BaseMessage := text_message Human "ab".

Definition human_x : BaseMessage :=
  mkMessage Human false (ContentStr "hi") None (Some "x") None None [] ∅.

(** ** message_chunk_to_message *)

(** A message that is not a chunk is returned as it is; a chunk is rebuilt
    as an instance of the first parent of its class, the plain class of the
    same variant, from its fields other than the type label. *)
Definition message_chunk_to_message (chunk : BaseMessage) : BaseMessage :=
  if negb (isinstance chunk BaseMessageChunkCls) then chunk
  else
    mkMessage (msg_variant chunk) false (msg_content chunk) (msg_name chunk)
      (msg_id chunk) (msg_role chunk) (msg_tool_call_id chunk)
      (msg_tool_calls chunk) (msg_additional_kwargs chunk).

(** ** messages_from_dict *)

(** A stored message: a dict with the keys ["type"] and ["data"]. *)
Record stored_message := mkStored {
  s_type : option string;
  s_data : option message_fields;
}.

Definition _message_from_dict (message : stored_message) : res BaseMessage :=
  match s_type message with
  | None => Raise KeyError
  | Some _type =>
      (* [message["data"]] is looked up in the branch that is taken *)
      let make v chunk :=
        match s_data message with
        | Some data => construct v chunk data
        | None => Raise KeyError
        end in
      if bool_decide (_type = "human") then make Human false
      else if bool_decide (_type = "ai") then make AI false
      else if bool_decide (_type = "system") then make System false
      else if bool_decide (_type = "chat") then make Chat false
      else if bool_decide (_type = "function") then make Function false
      else if bool_decide (_type = "tool") then make Tool false
      else if bool_decide (_type = "AIMessageChunk") then make AI true
      else if bool_decide (_type = "HumanMessageChunk") then make Human true
      else if bool_decide (_type = "FunctionMessageChunk") then
        make Function true
      else if bool_decide (_type = "ToolMessageChunk") then make Tool true
      else if bool_decide (_type = "SystemMessageChunk") then make System true
      else if bool_decide (_type = "ChatMessageChunk") then make Chat true
      else Raise ValueError
  end.

Definition messages_from_dict (messages : list stored_message)
    : res (list BaseMessage) :=
  res_map _message_from_dict messages.

(** ** get_buffer_string *)

(** [sep.join(parts)] *)
Fixpoint join (sep : string) (parts : list string) : string :=
  match parts with
  | [] => ""
  | p :: rest =>
      match rest with
      | [] => p
      | _ :: _ => p +:+ sep +:+ join sep rest
      end
  end.

(** The separator ["\n"] *)
Definition newline : string := String "010"%char EmptyString.

Section buffer_string.
(** [str(blocks)] for content that is a list of blocks; string content is
    formatted as itself. *)
Variable str_of_blocks : list block → string.

Definition format_content (c : content_t) : string :=
  match c with
  | ContentStr s => s
  | ContentList blocks => str_of_blocks blocks
  end.

(** The body of the loop of lines 56-74: the line of one message. *)
Definition buffer_line (human_prefix ai_prefix : string) (m : BaseMessage)
    : res string :=
  let* role :=
    if isinstance m (MessageCls Human) then Ok human_prefix
    else if isinstance m (MessageCls AI) then Ok ai_prefix
    else if isinstance m (MessageCls System) then Ok "System"
    else if isinstance m (MessageCls Function) then Ok "Function"
    else if isinstance m (MessageCls Tool) then Ok "Tool"
    else if isinstance m (MessageCls Chat) then
      Ok (default "None" (msg_role m))
    else Raise ValueError in
  let message := role +:+ ": " +:+ format_content (msg_content m) in
  if isinstance m (MessageCls AI) then
    match msg_additional_kwargs m !! "function_call" with
    | Some function_call => Ok (message +:+ function_call)
    | None => Ok message
    end
  else Ok message.

Definition get_buffer_string (messages : list BaseMessage)
    (human_prefix ai_prefix : string) : res string :=
  let* string_messages := res_map (buffer_line human_prefix ai_prefix) messages in
  Ok (join newline string_messages).
End buffer_string.

(** ** Further predicates used in the statements *)

(** [c in s] for a character [c] *)
Fixpoint contains_char (c : Ascii.ascii) (s : string) : bool :=
  match s with
  | EmptyString => false
  | String a rest => bool_decide (a = c) || contains_char c rest
  end.

(** String content without a line break. *)
Definition single_line (m : BaseMessage) : Prop :=
  ∃ s, msg_content m = ContentStr s ∧ contains_char "010"%char s = false.

(** A block that the search for the text block reads without a missing
    key: a dict block has a ["type"], and a ["text"] when its type is
    ["text"]. *)
Definition block_ok (b : block) : Prop :=
  match b with
  | BlockStr _ => True
  | BlockDict d =>
      ∃ t, d !! "type" = Some t ∧ (t = "text" → is_Some (d !! "text"))
  end.

Definition content_ok (m : BaseMessage) : Prop :=
  match msg_content m with
  | ContentStr _ => True
  | ContentList blocks => Forall block_ok blocks
  end.

(** A message that the constructor of its class builds from its own
    fields: the required field is there, and an AI chunk, whose tool call
    chunks are not among the fields, has no tool calls. *)
Definition valid_message (m : BaseMessage) : Prop :=
  required_fields_given (msg_variant m) (fields_of m) = true
  ∧ (msg_is_chunk m = true → msg_variant m = AI → msg_tool_calls m = []).

(** [m] without its tool calls *)
Definition without_tool_calls (m : BaseMessage) : BaseMessage :=
  mkMessage (msg_variant m) (msg_is_chunk m) (msg_content m) (msg_name m)
    (msg_id m) (msg_role m) (msg_tool_call_id m) []
    (msg_additional_kwargs m).

Definition ai_with_call : BaseMessage :=
  mkMessage AI false (ContentStr "searching") None None None None
    [{[ "name" := "search" ]}] ∅.

Definition chat_x : BaseMessage :=
  mkMessage Chat false (ContentStr "x") None None (Some "critic") None [] ∅.

(** A list of variants with every run of equal neighbours reduced to one. *)
Fixpoint compress (l : list variant) : list variant :=
  match l with
  | [] => []
  | a :: tl =>
      match tl with
      | [] => [a]
      | b :: _ => if bool_decide (a = b) then compress tl else a :: compress tl
      end
  end.

(** The variant that a role string of [_create_message_from_message_type]
    stands for. *)
Definition role_variant (message_type : string) : option variant :=
  if bool_decide (message_type ∈ ["human"; "user"]) then Some Human
  else if bool_decide (message_type ∈ ["ai"; "assistant"]) then Some AI
  else if bool_decide (message_type = "system") then Some System
  else if bool_decide (message_type = "function") then Some Function
  else if bool_decide (message_type = "tool") then Some Tool
  else None.

Definition human_chunk_a : BaseMessage :=
  mkMessage Human true (ContentStr "a") None None None None [] ∅.

(** * Properties *)

(** ** Normalisation and option handling *)

Lemma convert_to_messages_like (ms : list BaseMessage) :
  convert_to_messages (LikeMessage <$> ms) = Ok ms.
Proof.
  unfold convert_to_messages.
  induction ms as [|m ms IH]; [reflexivity|].
  rewrite fmap_cons. cbn [res_map _convert_to_message res_bind].
  rewrite IH. reflexivity.
Qed.

Lemma res_bind_ok {A B} (r : res A) (k : A → res B) (b : B) :
  res_bind r k = Ok b → ∃ a, r = Ok a ∧ k a = Ok b.
Proof. destruct r as [a|e]; simpl; [eauto | discriminate]. Qed.

Lemma trim_first inputs n tc allow_partial end_on :
  trim_messages inputs n tc "first" allow_partial end_on None false
  = res_bind (convert_to_messages inputs) (fun ms =>
      _first_n_tokens ms n (list_token_counter tc) allow_partial end_on None).
Proof.
  unfold trim_messages.
  rewrite (bool_decide_eq_false_2 ("first" = "last")) by discriminate.
  rewrite andb_false_r. simpl. reflexivity.
Qed.

Lemma trim_last inputs n tc allow_partial start_on keep_system :
  trim_messages inputs n tc "last" allow_partial None start_on keep_system
  = res_bind (convert_to_messages inputs) (fun ms =>
      _last_n_tokens ms n (list_token_counter tc) allow_partial keep_system
        start_on).
Proof.
  unfold trim_messages.
  rewrite (bool_decide_eq_false_2 ("last" = "first")) by discriminate.
  rewrite !andb_false_r. simpl. reflexivity.
Qed.

(** ** filter_messages *)

Lemma opt_in_none_r (x : option string) : opt_in x None = false.
Proof. reflexivity. Qed.

(** C7: with no include criterion and no exclude criterion, every message
    sequence is filtered to the empty sequence: a message is kept only when
    one of the supplied include criteria matches it. *)
Theorem filter_no_criteria_empty (ms : list BaseMessage) :
  filter_messages (LikeMessage <$> ms) None None None None None None = Ok [].
Proof.
  unfold filter_messages. rewrite convert_to_messages_like. simpl.
  f_equal. induction ms as [|m ms IH]; [reflexivity|].
  simpl. exact IH.
Qed.

(** The same for any input that normalises, and whatever is excluded. *)
Lemma filter_no_include_empty inputs ms excl_names excl_types excl_ids :
  convert_to_messages inputs = Ok ms →
  filter_messages inputs None excl_names None excl_types None excl_ids = Ok [].
Proof.
  intros Hconv. unfold filter_messages. rewrite Hconv. simpl. f_equal.
  clear Hconv. induction ms as [|m ms IH]; [reflexivity|].
  simpl. destruct (excluded _ _ _ m); [exact IH|].
  unfold included. rewrite !opt_in_none_r. simpl. exact IH.
Qed.

(** What the exclude criteria do drop: an excluded name, an excluded type
    label, an excluded id. *)
Lemma filter_excludes_names_labels_ids inputs out m
    incl_names excl_names incl_types excl_types incl_ids excl_ids :
  filter_messages inputs incl_names excl_names incl_types excl_types
    incl_ids excl_ids = Ok out →
  m ∈ out →
  opt_in (msg_name m) excl_names = false
  ∧ (msg_type m ∉ types_str excl_types)
  ∧ opt_in (msg_id m) excl_ids = false.
Proof.
  unfold filter_messages. intros H Hin.
  apply res_bind_ok in H as (ms & _ & H). injection H as <-.
  apply list_elem_of_In, filter_In in Hin as [_ Hkeep].
  unfold excluded in Hkeep.
  destruct (opt_in (msg_name m) excl_names); [discriminate|].
  case_bool_decide; [discriminate|].
  destruct (existsb _ _); [discriminate|].
  destruct (opt_in (msg_id m) excl_ids); [discriminate|].
  auto.
Qed.

(** C6 (the code differs): a human message is kept although its class is
    among the excluded types; the exclude test asks whether the type label,
    a string, is an instance of the class. *)
Theorem filter_keeps_excluded_class :
  filter_messages [LikeMessage human_a] None None
    (Some [TypeLabel "human"]) (Some [TypeClass (MessageCls Human)])
    None None
  = Ok [human_a]
  ∧ isinstance human_a (MessageCls Human) = true.
Proof. split; reflexivity. Qed.

(** With excluded ids ["x"], no returned message has id ["x"]. *)
Lemma filter_excluded_id_x inputs out m
    incl_names incl_types incl_ids :
  filter_messages inputs incl_names None incl_types None incl_ids
    (Some ["x"]) = Ok out →
  m ∈ out → msg_id m ≠ Some "x".
Proof.
  intros H Hin Hid.
  destruct (filter_excludes_names_labels_ids _ _ _ _ _ _ _ _ _ H Hin)
    as (_ & _ & Hx).
  rewrite Hid in Hx. discriminate.
Qed.

(** ** The prefix search of [_first_n_tokens] *)

Lemma find_seq_some (P : nat → bool) (a k i : nat) :
  List.find P (seq a k) = Some i →
  a ≤ i < a + k ∧ P i = true ∧ ∀ j, a ≤ j < i → P j = false.
Proof.
  revert a. induction k as [|k IH]; simpl; intros a H; [discriminate|].
  destruct (P a) eqn:Ha.
  - injection H as <-. repeat split; [lia | lia | exact Ha | intros; lia].
  - apply IH in H as (Hr & Hi & Hj). repeat split; [lia | lia | exact Hi |].
    intros j Hlt. destruct (decide (j = a)) as [->|Hne]; [exact Ha|].
    apply Hj. lia.
Qed.

Lemma find_seq_none (P : nat → bool) (a k : nat) :
  List.find P (seq a k) = None → ∀ j, a ≤ j < a + k → P j = false.
Proof.
  revert a. induction k as [|k IH]; simpl; intros a H j Hj; [lia|].
  destruct (P a) eqn:Ha; [discriminate|].
  destruct (decide (j = a)) as [->|Hne]; [exact Ha|].
  apply (IH _ H). lia.
Qed.

Lemma candidate_take {A} (ms : list A) (i : nat) :
  (if bool_decide (i = 0) then ms else slice_to_neg ms i)
  = take (length ms - i) ms.
Proof.
  case_bool_decide as Hi; [|reflexivity].
  subst i. rewrite Nat.sub_0_r, firstn_all. reflexivity.
Qed.

Lemma search_idx_spec count n ms :
  let k := search_idx count n ms in
  k ≤ length ms
  ∧ (k = 0 ∨ fits count n (take k ms) = true)
  ∧ ∀ j, k < j ≤ length ms → fits count n (take j ms) = false.
Proof.
  unfold search_idx.
  destruct (List.find _ _) as [i|] eqn:Hfind; simpl.
  - apply find_seq_some in Hfind as (Hr & Hfit & Hfirst).
    rewrite candidate_take in Hfit.
    repeat split; [lia | right; exact Hfit |].
    intros j Hj.
    specialize (Hfirst (length ms - j)). cbv beta in Hfirst.
    rewrite candidate_take in Hfirst.
    replace (length ms - (length ms - j)) with j in Hfirst by lia.
    apply Hfirst. lia.
  - repeat split; [lia | left; reflexivity |].
    intros j Hj.
    pose proof (find_seq_none _ _ _ Hfind (length ms - j)) as Hnone.
    cbv beta in Hnone. rewrite candidate_take in Hnone.
    replace (length ms - (length ms - j)) with j in Hnone by lia.
    apply Hnone. lia.
Qed.

Lemma search_idx_unique count n ms k :
  k ≤ length ms →
  (k = 0 ∨ fits count n (take k ms) = true) →
  (∀ j, k < j ≤ length ms → fits count n (take j ms) = false) →
  k = search_idx count n ms.
Proof.
  intros Hle Hfit Hmax.
  destruct (search_idx_spec count n ms) as (Hle' & Hfit' & Hmax').
  destruct (Nat.lt_trichotomy k (search_idx count n ms)) as [Hlt|[Heq|Hgt]];
    [|exact Heq|].
  - destruct Hfit' as [H0|Hf]; [lia|].
    rewrite Hmax in Hf by lia. discriminate.
  - destruct Hfit as [H0|Hf]; [lia|].
    rewrite Hmax' in Hf by lia. discriminate.
Qed.

Lemma first_n_plain ms n count end_on_seq :
  end_on_seq = None ∨ (∃ l, end_on_seq = Some (BoundSeq l)) →
  _first_n_tokens ms n count false end_on_seq None
  = Ok (take (search_idx count n ms) ms).
Proof.
  intros H. unfold _first_n_tokens. rewrite andb_false_r. simpl.
  destruct H as [->|[l ->]]; reflexivity.
Qed.

Lemma sum_costs_app (f : BaseMessage → Z) (l1 l2 : list BaseMessage) :
  foldl Z.add 0%Z (f <$> (l1 ++ l2))
  = (foldl Z.add 0%Z (f <$> l1) + foldl Z.add 0%Z (f <$> l2))%Z.
Proof.
  rewrite fmap_app, foldl_app.
  generalize (foldl Z.add 0%Z (f <$> l1)). 
  induction l2 as [|m l2 IH] using rev_ind; intros z; simpl; [lia|].
  rewrite fmap_app, !foldl_app. simpl. rewrite IH. lia.
Qed.

Lemma sum_costs_nonneg (f : BaseMessage → Z) (l : list BaseMessage) :
  (∀ m, 0 ≤ f m)%Z → (0 ≤ foldl Z.add 0%Z (f <$> l))%Z.
Proof.
  intros Hf. induction l as [|m l IH] using rev_ind; simpl; [lia|].
  rewrite sum_costs_app. simpl. specialize (Hf m). lia.
Qed.

Lemma first_n_largest_prefix count n ms :
  ∃ k,
    _first_n_tokens ms n count false None None = Ok (take k ms)
    ∧ largest_fitting_prefix count n ms k
    ∧ (∀ k', largest_fitting_prefix count n ms k' → k' = k)
    ∧ ((∀ j, 0 < j ≤ length ms → (n < count (take j ms))%Z) →
       take k ms = []).
Proof.
  exists (search_idx count n ms).
  destruct (search_idx_spec count n ms) as (Hle & Hfit & Hmax).
  assert (Hcase : ∀ l, fits count n l = false ↔ (n < count l)%Z).
  { intros l. unfold fits. rewrite bool_decide_eq_false. lia. }
  split; [apply first_n_plain; left; reflexivity|].
  split; [|split].
  - split; [exact Hle|]. split.
    + destruct Hfit as [H0|Hf]; [left; exact H0|right].
      apply bool_decide_eq_true in Hf. exact Hf.
    + intros j Hj. apply Hcase, Hmax, Hj.
  - intros k' (Hle' & Hfit' & Hmax'). apply search_idx_unique; [exact Hle'| |].
    + destruct Hfit' as [H0|Hf]; [left; exact H0|right].
      apply bool_decide_eq_true. exact Hf.
    + intros j Hj. apply Hcase, Hmax', Hj.
  - intros Hnone. destruct Hfit as [->|Hf]; [reflexivity|].
    destruct (search_idx count n ms) as [|k] eqn:Hk; [reflexivity|].
    apply bool_decide_eq_true in Hf. specialize (Hnone (S k)). lia.
Qed.

Lemma sum_costs_take_le (f : BaseMessage → Z) (l : list BaseMessage) i j :
  (∀ m, 0 ≤ f m)%Z → i ≤ j →
  (foldl Z.add 0%Z (f <$> take i l) ≤ foldl Z.add 0%Z (f <$> take j l))%Z.
Proof.
  intros Hf Hij. replace j with (i + (j - i)) by lia.
  rewrite <- take_take_drop, sum_costs_app.
  pose proof (sum_costs_nonneg f (take (j - i) (drop i l)) Hf). lia.
Qed.

(** C2 (amended): with strategy ["first"], no partial inclusion and no
    boundary type, trim returns [messages[0:k]] for the largest [k] whose
    prefix the counter accepts, [k = 0] being permitted without asking the
    counter: for a whole-list counter applied as it is and for a per-message
    counter summed over the prefix, [k] is the only index with that property.
    The result is empty when the first message alone exceeds the budget,
    provided the counter does not decrease along the prefixes, as a
    per-message counter of non-negative costs does not. *)
Theorem trim_first_largest_prefix (ms : list BaseMessage) (n : Z) :
  (∀ g : list BaseMessage → Z,
     ∃ k,
       trim_messages (LikeMessage <$> ms) n (CountList g) "first" false None
         None false = Ok (take k ms)
       ∧ largest_fitting_prefix g n ms k
       ∧ (∀ k', largest_fitting_prefix g n ms k' → k' = k)
       ∧ ((∀ i j, 0 < i ≤ j → j ≤ length ms →
             (g (take i ms) ≤ g (take j ms))%Z) →
          (n < g (take 1 ms))%Z → take k ms = []))
  ∧ (∀ f : BaseMessage → Z,
       let cost l := foldl Z.add 0%Z (f <$> l) in
       ∃ k,
         trim_messages (LikeMessage <$> ms) n (CountMessage f) "first" false
           None None false = Ok (take k ms)
         ∧ largest_fitting_prefix cost n ms k
         ∧ (∀ k', largest_fitting_prefix cost n ms k' → k' = k)
         ∧ ((∀ m, 0 ≤ f m)%Z → ∀ m0 rest, ms = m0 :: rest →
            (n < f m0)%Z → take k ms = [])).
Proof.
  split.
  - intros g.
    destruct (first_n_largest_prefix g n ms) as (k & Hk & Hlargest & Huniq & Hnone).
    exists k. split; [|split; [exact Hlargest|split; [exact Huniq|]]].
    + rewrite trim_first, convert_to_messages_like. exact Hk.
    + intros Hmono Hfirst. apply Hnone. intros j Hj.
      specialize (Hmono 1 j ltac:(lia) ltac:(lia)). lia.
  - intros f cost.
    destruct (first_n_largest_prefix cost n ms)
      as (k & Hk & Hlargest & Huniq & Hnone).
    exists k. split; [|split; [exact Hlargest|split; [exact Huniq|]]].
    + rewrite trim_first, convert_to_messages_like. exact Hk.
    + intros Hf m0 rest -> Hcost. apply Hnone. intros j Hj.
      pose proof (sum_costs_take_le f (m0 :: rest) 1 j Hf ltac:(lia)) as Hle.
      unfold cost. simpl in Hle. lia.
Qed.

(** ** Partial inclusion and the boundary walk *)

Lemma py_index_nat {A} (xs : list A) (i : nat) :
  py_index xs (Z.of_nat i)
  = match xs !! i with Some x => Ok x | None => Raise IndexError end.
Proof.
  unfold py_index.
  rewrite (bool_decide_eq_false_2 (Z.of_nat i < 0)%Z) by lia.
  rewrite Nat2Z.id.
  case_bool_decide as Hr; [reflexivity|].
  rewrite (proj2 (lookup_ge_None xs i)) by lia. reflexivity.
Qed.

Lemma py_index_minus_one {A} (xs : list A) :
  py_index xs (-1)
  = match last xs with Some x => Ok x | None => Raise IndexError end.
Proof.
  unfold py_index. rewrite last_lookup.
  rewrite (bool_decide_eq_true_2 (-1 < 0)%Z) by lia.
  destruct xs as [|x xs]; [reflexivity|].
  rewrite bool_decide_eq_true_2 by (simpl length; lia).
  replace (Z.to_nat (-1 + Z.of_nat (length (x :: xs))))
    with (pred (length (x :: xs))) by (simpl length; lia).
  destruct (_ !! _); reflexivity.
Qed.

Lemma drop_loop_some count n pre e bs k e' :
  k < length bs →
  drop_loop count n pre e bs k = Some e' →
  ∃ j, length bs - k ≤ j < length bs
       ∧ e' = set_content e (ContentList (take j bs))
       ∧ fits count n (pre ++ [e']) = true
       ∧ ∀ j', j < j' < length bs →
           fits count n (pre ++ [set_content e (ContentList (take j' bs))])
           = false.
Proof.
  revert e bs. induction k as [|k IH]; intros e bs Hk H; [discriminate|].
  simpl in H.
  destruct (fits count n
              (pre ++ [set_content e
                         (ContentList (take (length bs - 1) bs))])) eqn:Hfit.
  - injection H as <-. exists (length bs - 1).
    repeat split; [lia | lia | exact Hfit | intros; lia].
  - apply IH in H as (j & Hj & -> & Hfits & Hmax);
      [|rewrite length_take; lia].
    rewrite length_take in Hj, Hmax.
    exists j. unfold set_content in *. simpl in *.
    rewrite take_take in *.
    replace (j `min` (length bs - 1)) with j in * by lia.
    repeat split; [lia | lia | exact Hfits |].
    intros j' Hj'.
    destruct (decide (j' = length bs - 1)) as [->|Hne]; [exact Hfit|].
    specialize (Hmax j'). rewrite take_take in Hmax.
    replace (j' `min` (length bs - 1)) with j' in Hmax by lia.
    apply Hmax. lia.
Qed.

Lemma drop_loop_none count n pre e bs k :
  k < length bs →
  drop_loop count n pre e bs k = None →
  ∀ j, length bs - k ≤ j < length bs →
    fits count n (pre ++ [set_content e (ContentList (take j bs))]) = false.
Proof.
  revert e bs. induction k as [|k IH]; intros e bs Hk H j Hj; [lia|].
  simpl in H.
  destruct (fits count n
              (pre ++ [set_content e
                         (ContentList (take (length bs - 1) bs))])) eqn:Hfit;
    [discriminate|].
  destruct (decide (j = length bs - 1)) as [->|Hne]; [exact Hfit|].
  assert (Hlen : k < length (take (length bs - 1) bs))
    by (rewrite length_take; lia).
  pose proof (IH _ _ Hlen H j) as Hj'.
  rewrite length_take in Hj'. unfold set_content in *. simpl in *.
  rewrite take_take in Hj'.
  replace (j `min` (length bs - 1)) with j in Hj' by lia.
  apply Hj'. lia.
Qed.

Lemma include_partial_shape count n sp ms idx ms' idx' :
  include_partial count n sp ms idx = Ok (ms', idx') →
  (ms' = ms ∧ idx' = idx)
  ∨ ∃ orig e, ms !! idx = Some orig ∧ truncated_of sp orig e
              ∧ ms' = take idx ms ++ [e] ∧ idx' = S idx
              ∧ fits count n ms' = true.
Proof.
  unfold include_partial. rewrite py_index_nat.
  destruct (ms !! idx) as [orig|] eqn:Hidx; simpl; [|discriminate].
  unfold deep_copy.
  destruct (match msg_content orig with
            | ContentStr _ => None
            | ContentList blocks => _
            end) as [e|] eqn:Hblock.
  - intros [= <- <-]. right. exists orig, e.
    destruct (msg_content orig) as [s|bs] eqn:Hc; [discriminate|].
    destruct (decide (length bs = 0)) as [H0|Hpos].
    { rewrite H0 in Hblock. discriminate. }
    apply drop_loop_some in Hblock as (j & Hj & -> & Hfit & _); [|lia].
    repeat split; try done.
    exists bs, j. repeat split; [left; exact Hc | lia | lia].
  - destruct (boundary_text (msg_content orig)) as [text|err] eqn:Htext;
      simpl; [|discriminate].
    destruct text as [[|c t]|]; try (intros [= <- <-]; left; done).
    destruct (drop_loop _ _ _ _ _ _) as [e|] eqn:Hsplit;
      [|intros [= <- <-]; left; done].
    intros [= <- <-]. right. exists orig, e.
    destruct (decide (length (sp (String c t)) = 0)) as [H0|Hpos].
    { rewrite H0 in Hsplit. discriminate. }
    apply drop_loop_some in Hsplit as (j & Hj & -> & Hfit & _);
      [|rewrite length_fmap; lia].
    rewrite length_fmap in Hj.
    repeat split; try done.
    exists (text_block <$> sp (String c t)), j.
    repeat split; [right; eauto | lia | rewrite length_fmap; lia].
Qed.

Lemma end_on_walk_spec matches ms idx idx' :
  end_on_walk matches ms idx = Ok idx' →
  idx' ≤ idx
  ∧ (idx' = 0 ∨ ∃ m, ms !! (idx' - 1) = Some m ∧ matches m = true).
Proof.
  revert idx'. induction idx as [|i IH]; intros idx' H.
  - simpl in H. apply res_bind_ok in H as (m & _ & H).
    rewrite andb_false_r in H. injection H as <-. auto.
  - cbn [end_on_walk] in H.
    replace (Z.of_nat (S i) - 1)%Z with (Z.of_nat i) in H by lia.
    rewrite py_index_nat in H.
    destruct (ms !! i) as [m|] eqn:Hi; simpl in H; [|discriminate].
    destruct (matches m) eqn:Hm; simpl in H.
    + injection H as <-. split; [lia|]. right. exists m.
      rewrite Nat.sub_1_r. simpl. auto.
    + apply IH in H as [Hle Hmatch]. split; [lia | exact Hmatch].
Qed.

Lemma end_on_walk_total matches ms idx :
  ms ≠ [] → idx ≤ length ms → ∃ idx', end_on_walk matches ms idx = Ok idx'.
Proof.
  intros Hne. induction idx as [|i IH]; intros Hle.
  - simpl. rewrite py_index_minus_one.
    destruct (last ms) as [m|] eqn:Hlast.
    + simpl. rewrite andb_false_r. eauto.
    + apply last_None in Hlast. contradiction.
  - cbn [end_on_walk].
    replace (Z.of_nat (S i) - 1)%Z with (Z.of_nat i) by lia.
    rewrite py_index_nat.
    destruct (lookup_lt_is_Some_2 ms i ltac:(lia)) as [m ->]. simpl.
    destruct (negb (matches m) && _); [apply IH; lia | eauto].
Qed.

Lemma end_on_walk_empty matches idx :
  end_on_walk matches [] idx = Raise IndexError.
Proof.
  destruct idx as [|i]; [reflexivity|].
  cbn [end_on_walk].
  replace (Z.of_nat (S i) - 1)%Z with (Z.of_nat i) by lia.
  rewrite py_index_nat. reflexivity.
Qed.

Lemma align_end_on_le end_on ms idx idx' :
  align_end_on end_on ms idx = Ok idx' → idx' ≤ idx.
Proof.
  unfold align_end_on. destruct end_on as [[label|c|l]|]; intros H;
    try (injection H as <-; lia);
    apply end_on_walk_spec in H as [Hle _]; exact Hle.
Qed.

Lemma align_end_on_total end_on ms idx :
  ms ≠ [] → idx ≤ length ms → ∃ idx', align_end_on end_on ms idx = Ok idx'.
Proof.
  intros Hne Hle. unfold align_end_on.
  destruct end_on as [[label|c|l]|]; eauto using end_on_walk_total.
Qed.

Lemma first_n_tokens_shape ms n count allow_partial end_on out :
  _first_n_tokens ms n count allow_partial end_on None = Ok out →
  partial_prefix _default_text_splitter ms out.
Proof.
  unfold _first_n_tokens. simpl default.
  destruct (search_idx_spec count n ms) as (Hle & _ & _).
  set (idx := search_idx count n ms) in *.
  intros H. apply res_bind_ok in H as ([ms' idx'] & Hpartial & H).
  apply res_bind_ok in H as (idx'' & Hwalk & [= <-]).
  apply align_end_on_le in Hwalk.
  assert (Hsame : ms' = ms ∧ idx' = idx →
                  partial_prefix _default_text_splitter ms (take idx'' ms')).
  { intros [-> ->]. left. exists idx''. split; [lia | reflexivity]. }
  destruct (_ && _) eqn:Hguard; [|injection Hpartial as <- <-; auto].
  apply include_partial_shape in Hpartial
    as [Hunchanged|(orig & e & Hidx & Htrunc & -> & -> & _)]; [auto|].
  apply lookup_lt_Some in Hidx as Hlt.
  destruct (decide (idx'' = S idx)) as [->|Hne].
  - right. exists idx, orig, e. repeat split; [exact Hidx | exact Htrunc |].
    apply take_ge. rewrite length_app, length_take. simpl. lia.
  - left. exists idx''. split; [lia|].
    rewrite take_app_le by (rewrite length_take; lia).
    rewrite take_take. f_equal. lia.
Qed.

Lemma truncated_content sp orig e :
  truncated_of sp orig e →
  content_rewrite orig e ∧ ∃ bs, msg_content e = ContentList bs ∧ bs ≠ [].
Proof.
  intros (full & j & _ & Hj & ->). split; [eexists; reflexivity|].
  exists (take j full). split; [reflexivity|].
  intros Hnil. apply (f_equal length) in Hnil.
  rewrite length_take in Hnil. simpl in Hnil. lia.
Qed.

Lemma partial_prefix_elem sp ms out e :
  partial_prefix sp ms out → e ∈ out →
  e ∈ ms ∨ ∃ orig, orig ∈ ms ∧ truncated_of sp orig e.
Proof.
  intros [(k & _ & ->)|(k & orig & e' & Hk & Htrunc & ->)] Hin.
  - left. apply list_elem_of_lookup in Hin as [i Hi].
    apply lookup_take_Some in Hi as [Hi _].
    apply list_elem_of_lookup. eauto.
  - apply elem_of_app in Hin as [Hin|Hin].
    + left. apply list_elem_of_lookup in Hin as [i Hi].
      apply lookup_take_Some in Hi as [Hi _].
      apply list_elem_of_lookup. eauto.
    + apply list_elem_of_singleton in Hin as ->. right. exists orig.
      split; [|exact Htrunc]. apply list_elem_of_lookup. eauto.
Qed.

Lemma trim_ok_cases inputs n tc strategy allow_partial end_on start_on
    keep_system out :
  trim_messages inputs n tc strategy allow_partial end_on start_on
    keep_system = Ok out →
  ∃ ms, convert_to_messages inputs = Ok ms
    ∧ ((strategy = "first"
        ∧ _first_n_tokens ms n (list_token_counter tc) allow_partial end_on
            None = Ok out)
       ∨ (strategy = "last"
          ∧ _last_n_tokens ms n (list_token_counter tc) allow_partial
              keep_system start_on = Ok out)).
Proof.
  unfold trim_messages. intros H.
  repeat (destruct (_ && _) in H; [discriminate|]).
  apply res_bind_ok in H as (ms & Hconv & H). exists ms. split; [exact Hconv|].
  repeat case_bool_decide; try discriminate; auto.
Qed.

Lemma last_n_tokens_ok ms n count allow_partial keep_system start_on out :
  _last_n_tokens ms n count allow_partial keep_system start_on = Ok out →
  ∃ sw r,
    swapped_system_of keep_system ms = Ok sw
    ∧ _first_n_tokens
        (if sw then take 1 ms ++ slice_1_down ms else reverse ms)
        n count allow_partial start_on None = Ok r
    ∧ out = if sw then take 1 r ++ slice_1_down r else reverse r.
Proof.
  unfold _last_n_tokens. intros H.
  apply res_bind_ok in H as (sw & Hsw & H).
  apply res_bind_ok in H as (r & Hr & H).
  exists sw, r. repeat split; [exact Hsw | exact Hr |].
  destruct sw; injection H as <-; reflexivity.
Qed.

(** ** trim_messages: shape of the result *)

Lemma partial_prefix_trimmed sp ms out :
  partial_prefix sp ms out → trimmed_prefix ms out.
Proof.
  intros [(k & _ & ->)|(k & orig & e & Hk & Htrunc & ->)].
  - left. eauto.
  - right. exists k, orig, e.
    apply truncated_content in Htrunc as [Hrw _]. auto.
Qed.

Lemma partial_prefix_reverse sp ms r :
  partial_prefix sp (reverse ms) r → trimmed_suffix ms (reverse r).
Proof.
  intros [(k & _ & ->)|(k & orig & e & Hk & Htrunc & ->)].
  - left. exists (length ms - k).
    rewrite take_reverse, reverse_involutive. reflexivity.
  - right. apply lookup_lt_Some in Hk as Hlt. rewrite length_reverse in Hlt.
    rewrite reverse_lookup in Hk by exact Hlt.
    exists (length ms - S k), orig, e.
    apply truncated_content in Htrunc as [Hrw _].
    repeat split; [exact Hk | exact Hrw |].
    rewrite reverse_snoc, take_reverse, reverse_involutive.
    do 2 f_equal. lia.
Qed.

(** C3 (amended): trim never reorders or duplicates messages when the
    leading system message is not set aside: with strategy ["first"] the
    output is a contiguous prefix of the normalised input, with strategy
    ["last"] and [keep_system] unset (or the first message not a system
    message) a contiguous suffix, in which at most the one message at the
    cut has its content rewritten. *)
Theorem trim_contiguous inputs n tc strategy allow_partial end_on start_on
    keep_system out :
  trim_messages inputs n tc strategy allow_partial end_on start_on
    keep_system = Ok out →
  ∃ ms, convert_to_messages inputs = Ok ms
    ∧ (strategy = "first" → trimmed_prefix ms out)
    ∧ (strategy = "last" → swapped_system_of keep_system ms = Ok false →
       trimmed_suffix ms out).
Proof.
  intros H. apply trim_ok_cases in H as (ms & Hconv & Hcases).
  exists ms. split; [exact Hconv|].
  destruct Hcases as [[-> Hfirst]|[-> Hlast]].
  - split; [|discriminate]. intros _.
    eapply partial_prefix_trimmed, first_n_tokens_shape, Hfirst.
  - split; [discriminate|]. intros _ Hsw.
    apply last_n_tokens_ok in Hlast as (sw & r & Hsw' & Hr & ->).
    rewrite Hsw in Hsw'. injection Hsw' as <-.
    eapply partial_prefix_reverse, first_n_tokens_shape, Hr.
Qed.

Lemma trim_contiguous_witness :
  ∃ ms, convert_to_messages (LikeMessage <$> conversation) = Ok ms
    ∧ ("last" = "first" → trimmed_prefix ms [human_b; human_c])
    ∧ ("last" = "last" → swapped_system_of false ms = Ok false →
       trimmed_suffix ms [human_b; human_c]).
Proof.
  apply (trim_contiguous _ 2%Z unit_cost "last" false None None false).
  reflexivity.
Defined.

(** C3 as stated fails when the leading system message is kept: the result
    on the four-message conversation repeats the system message and is
    neither a prefix nor a suffix of the input. *)
Lemma trim_keep_system_not_contiguous :
  trim_messages (LikeMessage <$> conversation) 2 unit_cost "last" false
    None None true = Ok [sys_s; human_a; sys_s]
  ∧ ¬ (trimmed_prefix conversation [sys_s; human_a; sys_s]
       ∨ trimmed_suffix conversation [sys_s; human_a; sys_s]).
Proof.
  split; [reflexivity|].
  intros [[(k & H)|(k & orig & e & Hk & (c & ->) & H)]
         |[(k & H)|(k & orig & e & Hk & (c & ->) & H)]];
    repeat (destruct k as [|k]; simpl in *; try discriminate);
    simplify_eq.
Qed.

(** ** trim_messages: partial truncation *)

Lemma last_n_elem ms n count allow_partial keep_system start_on out e :
  _last_n_tokens ms n count allow_partial keep_system start_on = Ok out →
  e ∈ out →
  e ∈ ms ∨ ∃ orig, orig ∈ ms ∧ truncated_of _default_text_splitter orig e.
Proof.
  intros H Hin.
  apply last_n_tokens_ok in H as (sw & r & _ & Hr & ->).
  apply first_n_tokens_shape in Hr.
  assert (Hin_r : e ∈ r).
  { destruct sw; [|rewrite elem_of_reverse in Hin; exact Hin].
    apply elem_of_app in Hin as [Hin|Hin].
    - eapply subseteq_take, Hin.
    - unfold slice_1_down in Hin. rewrite elem_of_reverse in Hin.
      eapply subseteq_take, Hin. }
  assert (Hsub : ∀ x, x ∈ (if sw then take 1 ms ++ slice_1_down ms
                           else reverse ms) → x ∈ ms).
  { intros x Hx. destruct sw; [|rewrite elem_of_reverse in Hx; exact Hx].
    apply elem_of_app in Hx as [Hx|Hx].
    - eapply subseteq_take, Hx.
    - unfold slice_1_down in Hx. rewrite elem_of_reverse in Hx.
      eapply subseteq_take, Hx. }
  destruct (partial_prefix_elem _ _ _ _ Hr Hin_r) as [Hx|(orig & Ho & Ht)];
    [left; auto | right; eauto].
Qed.

(** C9: partial truncation never empties the boundary message.  Every
    message of the output of a trim with [allow_partial] set is a message
    of the input or a truncated copy of one, whose content is a non-empty
    list of blocks, a strict prefix of the blocks that were shortened; and
    a drop loop run for (number of blocks - 1) rounds keeps between one and
    (number of blocks - 1) blocks. *)
Theorem partial_truncation_nonempty inputs n tc strategy end_on start_on
    keep_system out e :
  trim_messages inputs n tc strategy true end_on start_on keep_system
    = Ok out →
  e ∈ out →
  (∃ ms, convert_to_messages inputs = Ok ms
     ∧ (e ∈ ms
        ∨ ∃ orig, orig ∈ ms
            ∧ truncated_of _default_text_splitter orig e
            ∧ ∃ bs, msg_content e = ContentList bs ∧ bs ≠ []))
  ∧ (∀ count pre x blocks x',
       drop_loop count n pre x blocks (length blocks - 1) = Some x' →
       ∃ j, 0 < j < length blocks
            ∧ x' = set_content x (ContentList (take j blocks))).
Proof.
  intros H Hin. split.
  - apply trim_ok_cases in H as (ms & Hconv & Hcases).
    exists ms. split; [exact Hconv|].
    assert (Hel : e ∈ ms
                  ∨ ∃ orig, orig ∈ ms
                      ∧ truncated_of _default_text_splitter orig e).
    { destruct Hcases as [[_ Hfirst]|[_ Hlast]].
      - eapply partial_prefix_elem; [|exact Hin].
        eapply first_n_tokens_shape, Hfirst.
      - eapply last_n_elem; [exact Hlast | exact Hin]. }
    destruct Hel as [Hel|(orig & Ho & Ht)]; [left; exact Hel|right].
    exists orig. repeat split; [exact Ho | exact Ht |].
    apply truncated_content in Ht as [_ Hbs]. exact Hbs.
  - intros count pre x blocks x' Hloop.
    destruct (decide (length blocks = 0)) as [H0|Hpos].
    { rewrite H0 in Hloop. discriminate. }
    apply drop_loop_some in Hloop as (j & Hj & -> & _); [|lia].
    exists j. split; [lia | reflexivity].
Qed.

Lemma partial_truncation_nonempty_witness :
  (∃ ms, convert_to_messages (LikeMessage <$> [three_blocks; human_a]) = Ok ms
     ∧ (two_blocks ∈ ms
        ∨ ∃ orig, orig ∈ ms
            ∧ truncated_of _default_text_splitter orig two_blocks
            ∧ ∃ bs, msg_content two_blocks = ContentList bs ∧ bs ≠ []))
  ∧ (∀ count pre x blocks x',
       drop_loop count 2 pre x blocks (length blocks - 1) = Some x' →
       ∃ j, 0 < j < length blocks
            ∧ x' = set_content x (ContentList (take j blocks))).
Proof.
  apply (partial_truncation_nonempty (LikeMessage <$> [three_blocks; human_a])
           2%Z size_cost "first" None None false [two_blocks] two_blocks).
  - vm_compute. reflexivity.
  - constructor.
Defined.

(** ** trim_messages: the leading system message *)

Lemma first_n_no_partial ms n count end_on out :
  _first_n_tokens ms n count false end_on None = Ok out →
  ∃ k, k ≤ search_idx count n ms ∧ out = take k ms.
Proof.
  unfold _first_n_tokens. rewrite andb_false_r. simpl.
  intros H. apply res_bind_ok in H as (k & Hwalk & [= <-]).
  apply align_end_on_le in Hwalk. eauto.
Qed.



Lemma swapped_system_of_cons keep_system s rest :
  swapped_system_of keep_system (s :: rest)
  = Ok (keep_system && isinstance s (MessageCls System)).
Proof.
  unfold swapped_system_of. destruct keep_system; [|reflexivity].
  change 0%Z with (Z.of_nat 0). rewrite py_index_nat. reflexivity.
Qed.

Lemma last_n_keep_system s rest n count allow_partial start_on :
  isinstance s (MessageCls System) = true →
  _last_n_tokens (s :: rest) n count allow_partial true start_on
  = res_bind
      (_first_n_tokens (s :: slice_1_down (s :: rest)) n count allow_partial
         start_on None)
      (fun r => Ok (take 1 r ++ slice_1_down r)).
Proof.
  intros Hsys. unfold _last_n_tokens.
  rewrite swapped_system_of_cons, Hsys. reflexivity.
Qed.






(** What the code returns after the system message, without partial
    inclusion: the sequence searched is the system message followed by
    [messages[1::-1]], the first two messages read backwards, so the result
    is empty or made of the system message, at most the second message of
    the input, and the system message again. *)
Lemma last_n_keep_system_outputs s rest n count start_on out :
  isinstance s (MessageCls System) = true →
  _last_n_tokens (s :: rest) n count false true start_on = Ok out →
  out = [] ∨ out = [s; s] ∨ out = [s; s; s]
  ∨ ∃ m, head rest = Some m ∧ out = [s; m; s].
Proof.
  intros Hsys. rewrite last_n_keep_system by exact Hsys.
  intros H. apply res_bind_ok in H as (r & Hr & [= <-]).
  apply first_n_no_partial in Hr as (k & _ & ->).
  destruct rest as [|m rest];
    do 3 (destruct k as [|k]; [cbn; eauto 10|]); cbn; eauto 10.
Qed.




(** C10: with strategy ["last"] and [keep_system] set, trim of the empty
    sequence fails with an out-of-range index on reading the first message,
    whatever the other options; with [keep_system] unset the same call
    returns the empty sequence; and on a non-empty sequence reading the
    first message never fails. *)
Theorem trim_last_keep_system_empty_input :
  (∀ n tc allow_partial start_on,
     trim_messages [] n tc "last" allow_partial None start_on true
     = Raise IndexError)
  ∧ (∀ n tc allow_partial,
       trim_messages [] n tc "last" allow_partial None None false = Ok [])
  ∧ (∀ keep_system ms, ms ≠ [] →
       ∃ sw, swapped_system_of keep_system ms = Ok sw).
Proof.
  split; [|split].
  - intros n tc allow_partial start_on. rewrite trim_last. reflexivity.
  - intros n tc allow_partial. rewrite trim_last. reflexivity.
  - intros keep_system [|m ms] Hne; [contradiction|].
    rewrite swapped_system_of_cons. eauto.
Qed.

Lemma trim_first_largest_prefix_witness :
  ∃ k,
    trim_messages (LikeMessage <$> conversation) 2 lone_cost "first" false
      None None false = Ok (take k conversation)
    ∧ largest_fitting_prefix lone_count 2 conversation k
    ∧ (∀ k', largest_fitting_prefix lone_count 2 conversation k' → k' = k)
    ∧ ((∀ i j, 0 < i ≤ j → j ≤ length conversation →
          (lone_count (take i conversation)
           ≤ lone_count (take j conversation))%Z) →
       (2 < lone_count (take 1 conversation))%Z →
       take k conversation = []).
Proof.
  exact (proj1 (trim_first_largest_prefix conversation 2%Z) lone_count).
Defined.

(** C2 as stated fails for counters that decrease along the prefixes or
    refuse the empty prefix: the first message alone costs ten tokens
    against a budget of five, yet both messages are returned, the pair
    costing nothing; and with a counter that charges one token for every
    list and a budget of zero the empty result is returned although no
    prefix, the empty one included, is within the budget. *)
Lemma trim_first_largest_prefix_counterexample :
  (trim_messages (LikeMessage <$> [human_a; human_b]) 5 lone_cost "first"
     false None None false = Ok [human_a; human_b]
   ∧ (5 < list_token_counter lone_cost (take 1 [human_a; human_b]))%Z)
  ∧ (trim_messages (LikeMessage <$> [human_a]) 0 always_one "first" false
       None None false = Ok []
     ∧ ∀ k, (0 < list_token_counter always_one (take k [human_a]))%Z).
Proof.
  split; split; try reflexivity.
Qed.

(** The four unit-cost messages against a budget of two: the first two
    with strategy ["first"], the last two with strategy ["last"]. *)
Example trim_first_unit_costs :
  trim_messages (LikeMessage <$> conversation) 2 unit_cost "first" false
    None None false = Ok [sys_s; human_a].
Proof. reflexivity. Qed.

Example trim_last_unit_costs :
  trim_messages (LikeMessage <$> conversation) 2 unit_cost "last" false
    None None false = Ok [human_b; human_c].
Proof. reflexivity. Qed.

Lemma trim_last_keep_system_empty_input_witness :
  ∃ sw, swapped_system_of true conversation = Ok sw.
Proof.
  apply trim_last_keep_system_empty_input. discriminate.
Defined.

(** Without [keep_system], the empty sequence still fails when [start_on]
    is a label or a class: the boundary walk reads [messages[-1]]. *)
Lemma trim_last_empty_start_on_label n tc allow_partial label :
  trim_messages [] n tc "last" allow_partial None (Some (BoundStr label))
    false = Raise IndexError.
Proof. rewrite trim_last. reflexivity. Qed.

(** ** trim_messages: partial inclusion of blocks *)

Lemma drop_loop_largest count n pre e bs k j :
  k < length bs →
  length bs - k ≤ j < length bs →
  fits count n (pre ++ [set_content e (ContentList (take j bs))]) = true →
  (∀ j', j < j' < length bs →
     fits count n (pre ++ [set_content e (ContentList (take j' bs))])
     = false) →
  drop_loop count n pre e bs k = Some (set_content e (ContentList (take j bs))).
Proof.
  intros Hk Hj Hfit Hmax.
  destruct (drop_loop count n pre e bs k) as [e'|] eqn:Hloop.
  - apply drop_loop_some in Hloop as (j0 & Hj0 & -> & Hfit0 & Hmax0);
      [|exact Hk].
    destruct (Nat.lt_trichotomy j0 j) as [Hlt|[->|Hgt]]; [|reflexivity|].
    + rewrite Hmax0 in Hfit by lia. discriminate.
    + rewrite Hmax in Hfit0 by lia. discriminate.
  - rewrite (drop_loop_none _ _ _ _ _ _ Hk Hloop j Hj) in Hfit. discriminate.
Qed.

Lemma include_partial_single_block count n rest :
  include_partial count n _default_text_splitter (aaaa_message :: rest) 0
  = Ok (aaaa_message :: rest, 0).
Proof.
  unfold include_partial. rewrite py_index_nat. reflexivity.
Qed.

(** C4 (amended): with strategy ["first"] and [allow_partial] set, when the
    selected prefix [messages[:k]] leaves at least two messages out and the
    first of them has blocks [b1..bn], the result is the prefix followed by
    that message cut to [b1..bj], [j] the largest of [1..n-1] for which the
    counter accepts it, whenever there is one.  A message of a single block
    is never shortened by dropping blocks, and the block's text ["aaaa"]
    splits into one unit: when no non-empty prefix of a sequence starting
    with that message fits, the result is empty. *)
Theorem trim_first_partial_blocks :
  (∀ ms n tc k orig bs j,
     let count := list_token_counter tc in
     search_idx count n ms = k → S k < length ms →
     ms !! k = Some orig → msg_content orig = ContentList bs →
     0 < j < length bs →
     fits count n (take k ms ++ [set_content orig (ContentList (take j bs))])
     = true →
     (∀ j', j < j' < length bs →
        fits count n
          (take k ms ++ [set_content orig (ContentList (take j' bs))])
        = false) →
     trim_messages (LikeMessage <$> ms) n tc "first" true None None false
     = Ok (take k ms ++ [set_content orig (ContentList (take j bs))]))
  ∧ (∀ rest n tc,
       (∀ j, 0 < j ≤ S (length rest) →
          fits (list_token_counter tc) n (take j (aaaa_message :: rest))
          = false) →
       trim_messages (LikeMessage <$> aaaa_message :: rest) n tc "first" true
         None None false = Ok []).
Proof.
  split.
  - intros ms n tc k orig bs j count Hk Hlen Hlookup Hcontent Hj Hfit Hmax.
    rewrite trim_first, convert_to_messages_like. cbn [res_bind].
    unfold _first_n_tokens. fold count. rewrite Hk.
    rewrite bool_decide_eq_true_2 by lia. cbn [andb default].
    unfold include_partial. rewrite py_index_nat, Hlookup. cbn [res_bind].
    rewrite Hcontent. unfold deep_copy.
    rewrite (drop_loop_largest count n (take k ms) orig bs (length bs - 1) j)
      by (assumption || lia).
    cbn [res_bind align_end_on]. f_equal.
    apply take_ge. rewrite length_app, length_take. simpl. lia.
  - intros rest n tc Hnone.
    rewrite trim_first, convert_to_messages_like. cbn [res_bind].
    unfold _first_n_tokens. cbn [default].
    destruct (search_idx_spec (list_token_counter tc) n
                (aaaa_message :: rest)) as (Hle & Hfit & _).
    assert (Hidx : search_idx (list_token_counter tc) n
                     (aaaa_message :: rest) = 0).
    { destruct Hfit as [H0|Hfit]; [exact H0|].
      destruct (search_idx _ _ _) as [|i]; [reflexivity|].
      rewrite Hnone in Hfit by (simpl in Hle; lia). discriminate. }
    rewrite Hidx.
    destruct (_ && _); [rewrite include_partial_single_block|]; reflexivity.
Qed.

Lemma trim_first_partial_blocks_witness :
  trim_messages (LikeMessage <$> [three_blocks; human_a]) 2 size_cost "first"
    true None None false = Ok [two_blocks].
Proof.
  apply (proj1 trim_first_partial_blocks [three_blocks; human_a] 2%Z size_cost
           0 three_blocks
           [text_block "aaaa"; text_block "bb"; text_block "c"] 2);
    try reflexivity; try (simpl; lia).
Defined.

(** C4 as stated fails on its own example: the single message with content
    [[{"type": "text", "text": "aaaa"}]], four tokens against a budget of
    two, is not truncated; the result is empty and holds no message. *)
Lemma trim_first_partial_single_block_empty :
  trim_messages [LikeMessage aaaa_message] 2 char_cost "first" true
    None None false = Ok []
  ∧ fits (list_token_counter char_cost) 2 [aaaa_message] = false
  ∧ ¬ ∃ e : BaseMessage, e ∈ ([] : list BaseMessage).
Proof.
  split; [reflexivity|]. split; [reflexivity|].
  intros [e He]. apply elem_of_nil in He. exact He.
Qed.

(** ** trim_messages: the boundary type *)

(** When [end_on] is a single label or a single class and a result is
    returned, it is empty or ends on a message of that type. *)
Lemma first_n_end_on_single ms n count allow_partial b out :
  (∃ label, b = BoundStr label) ∨ (∃ c, b = BoundType c) →
  _first_n_tokens ms n count allow_partial (Some b) None = Ok out →
  out = [] ∨ ∃ m, last out = Some m ∧ matches_boundary b m.
Proof.
  intros Hb. unfold _first_n_tokens. intros H.
  apply res_bind_ok in H as ([ms' idx'] & _ & H).
  apply res_bind_ok in H as (k & Hwalk & [= <-]).
  assert (Hspec : k = 0 ∨ ∃ m, ms' !! (k - 1) = Some m ∧ matches_boundary b m).
  { destruct Hb as [[label ->]|[c ->]]; simpl in Hwalk;
      apply end_on_walk_spec in Hwalk as [_ [H0|(m & Hm & Hmatch)]];
      auto; right; exists m; split; auto.
    simpl. apply bool_decide_eq_true in Hmatch. exact Hmatch. }
  destruct Hspec as [->|(m & Hm & Hmatch)]; [left; reflexivity|].
  destruct k as [|k]; [left; reflexivity|]. right. exists m.
  split; [|exact Hmatch].
  simpl in Hm. rewrite Nat.sub_0_r in Hm.
  rewrite (take_S_r _ _ _ Hm). apply last_snoc.
Qed.

(** C5 (the code differs): a boundary type given in the declared shape, a
    sequence of labels or classes, is ignored: the one human message is
    returned although the prefix is to end on an ["ai"] message.  With a
    single label the walk is done, but it reads [messages[idx - 1]] before
    testing [idx > 0] and fails on the empty sequence. *)
Theorem trim_first_end_on_sequence_ignored :
  trim_messages [LikeMessage human_a] 10 unit_cost "first" false
    (Some (BoundSeq [TypeLabel "ai"])) None false = Ok [human_a]
  ∧ ¬ matches_boundary (BoundSeq [TypeLabel "ai"]) human_a
  ∧ trim_messages [LikeMessage human_a] 10 unit_cost "first" false
      (Some (BoundStr "ai")) None false = Ok []
  ∧ trim_messages [] 10 unit_cost "first" false (Some (BoundStr "ai")) None
      false = Raise IndexError.
Proof.
  split; [reflexivity|]. split; [|split; reflexivity].
  intros (t & Ht & Hmatch).
  apply list_elem_of_singleton in Ht as ->. discriminate.
Qed.

(** ** merge_message_runs *)

Lemma msg_to_chunk_class m :
  ∃ c, _msg_to_chunk m = Ok c ∧ class_of c = MessageChunkCls (msg_variant m).
Proof.
  destruct m as [v chunk ? ? ? ? ? ? ?].
  destruct v, chunk; eexists; split; reflexivity.
Qed.

Lemma chunk_to_msg_class c m :
  _chunk_to_msg c = Ok m →
  msg_variant m = msg_variant c ∧ msg_is_chunk m = false.
Proof.
  destruct c as [v chunk ? ? ? ? ? ? ?].
  destruct v, chunk; intros [= <-]; split; reflexivity.
Qed.

Lemma isinstance_merged l m p :
  msg_variant m = msg_variant l → msg_is_chunk m = false →
  isinstance l (class_of p) = false → isinstance m (class_of p) = false.
Proof.
  intros Hv Hplain. unfold class_of, isinstance.
  rewrite Hv, Hplain. destruct (msg_is_chunk p); [|auto].
  intros _. apply andb_false_r.
Qed.

Lemma no_adjacent_run_snoc init l x :
  no_adjacent_run (init ++ [l; x])
  ↔ no_adjacent_run (init ++ [l]) ∧ isinstance x (class_of l) = false.
Proof.
  induction init as [|a init IH]; [simpl; tauto|].
  change ((a :: init) ++ [l; x]) with (a :: (init ++ [l; x])).
  change ((a :: init) ++ [l]) with (a :: (init ++ [l])).
  cbn [no_adjacent_run]. rewrite IH.
  destruct init as [|b init]; simpl; tauto.
Qed.

Lemma no_adjacent_run_replace_last init l m :
  (∀ p, isinstance l (class_of p) = false → isinstance m (class_of p) = false) →
  no_adjacent_run (init ++ [l]) → no_adjacent_run (init ++ [m]).
Proof.
  intros Hm. induction init as [|a init IH]; [simpl; tauto|].
  change ((a :: init) ++ [l]) with (a :: (init ++ [l])).
  change ((a :: init) ++ [m]) with (a :: (init ++ [m])).
  cbn [no_adjacent_run]. intros [Hhead Htail]. split; [|auto].
  destruct init as [|b init]; simpl in *; auto.
Qed.

Lemma no_adjacent_run_middle init l x rest :
  no_adjacent_run (init ++ l :: x :: rest) → isinstance x (class_of l) = false.
Proof.
  induction init as [|a init IH]; simpl; [tauto|].
  intros [_ Htail]. auto.
Qed.

Section merge_properties.
Variable chunk_add : BaseMessage → BaseMessage → res BaseMessage.

(** The sum of two chunks is of the class of the left one. *)
Hypothesis chunk_add_class :
  ∀ a b c, chunk_add a b = Ok c → class_of c = class_of a.

Lemma merge_step_snoc init l msg :
  merge_step chunk_add (init ++ [l]) msg
  = if negb (isinstance msg (class_of l)) then Ok (init ++ [l; msg])
    else
      res_bind (_msg_to_chunk l) (fun a =>
      res_bind (_msg_to_chunk msg) (fun b =>
      res_bind (chunk_add a b) (fun sum =>
      res_bind (_chunk_to_msg sum) (fun m => Ok (init ++ [m]))))).
Proof.
  unfold merge_step, deep_copy. rewrite last_snoc.
  rewrite (take_app_length' init [l])
    by (rewrite length_app; simpl; lia).
  reflexivity.
Qed.

Lemma merge_step_invariant merged msg merged' :
  merged ≠ [] → no_adjacent_run merged →
  merge_step chunk_add merged msg = Ok merged' →
  merged' ≠ [] ∧ no_adjacent_run merged'.
Proof.
  destruct merged as [|l init _] using rev_ind; [contradiction|].
  intros _ Hrun. rewrite merge_step_snoc.
  destruct (isinstance msg (class_of l)) eqn:Hinst; simpl.
  - intros H.
    apply res_bind_ok in H as (a & Ha & H).
    apply res_bind_ok in H as (b & _ & H).
    apply res_bind_ok in H as (sum & Hsum & H).
    apply res_bind_ok in H as (m & Hm & [= <-]).
    split; [intros Hnil; apply app_eq_nil in Hnil as [_ ?]; discriminate|].
    apply chunk_add_class in Hsum.
    destruct (msg_to_chunk_class l) as (a' & Ha' & Hclass).
    rewrite Ha in Ha'. injection Ha' as <-. rewrite Hclass in Hsum.
    apply chunk_to_msg_class in Hm as [Hv Hplain].
    assert (Hsumv : msg_variant sum = msg_variant l).
    { unfold class_of in Hsum. destruct (msg_is_chunk sum); congruence. }
    eapply no_adjacent_run_replace_last; [|exact Hrun].
    intros p. apply isinstance_merged; [congruence | exact Hplain].
  - intros [= <-].
    split; [intros Hnil; apply app_eq_nil in Hnil as [_ ?]; discriminate|].
    apply no_adjacent_run_snoc. auto.
Qed.

Lemma merge_loop_invariant rest merged out :
  merged ≠ [] → no_adjacent_run merged →
  merge_loop chunk_add merged rest = Ok out →
  out ≠ [] ∧ no_adjacent_run out.
Proof.
  revert merged. induction rest as [|msg rest IH]; intros merged Hne Hrun H.
  - injection H as <-. auto.
  - simpl in H. apply res_bind_ok in H as (merged' & Hstep & H).
    destruct (merge_step_invariant _ _ _ Hne Hrun Hstep) as [Hne' Hrun'].
    eapply IH; eauto.
Qed.

Lemma merge_loop_no_run rest merged :
  merged ≠ [] → no_adjacent_run (merged ++ rest) →
  merge_loop chunk_add merged rest = Ok (merged ++ rest).
Proof.
  revert merged. induction rest as [|msg rest IH]; intros merged Hne Hrun.
  - rewrite app_nil_r. reflexivity.
  - destruct merged as [|l init _] using rev_ind; [contradiction|].
    cbn [merge_loop]. rewrite merge_step_snoc.
    rewrite <- app_assoc in Hrun. simpl in Hrun.
    rewrite (no_adjacent_run_middle _ _ _ _ Hrun). cbn [negb res_bind].
    replace ((init ++ [l]) ++ msg :: rest)
      with ((init ++ [l; msg]) ++ rest)
      by (rewrite <- !app_assoc; reflexivity).
    apply IH.
    + intros Hnil. apply app_eq_nil in Hnil as [_ ?]. discriminate.
    + rewrite <- app_assoc. exact Hrun.
Qed.

(** C8: merge_message_runs is idempotent.  Whenever it returns [out], no
    message of [out] is an instance of the class of the message before it,
    so merging [out] again combines nothing and returns [out]. *)
Theorem merge_message_runs_idempotent inputs out :
  merge_message_runs chunk_add inputs = Ok out →
  merge_message_runs chunk_add (LikeMessage <$> out) = Ok out
  ∧ no_adjacent_run out.
Proof.
  unfold merge_message_runs at 1.
  destruct inputs as [|i inputs]; [intros [= <-]; split; [reflexivity|exact I]|].
  intros H. apply res_bind_ok in H as (ms & _ & H).
  destruct ms as [|first rest]; [discriminate|].
  apply merge_loop_invariant in H as [Hne Hrun];
    [|discriminate|simpl; auto].
  split; [|exact Hrun].
  destruct out as [|o os]; [contradiction|].
  unfold merge_message_runs. rewrite fmap_cons, <- fmap_cons.
  rewrite convert_to_messages_like. cbn [res_bind].
  apply (merge_loop_no_run os [o]); [discriminate | exact Hrun].
Qed.
End merge_properties.

Lemma concat_chunks_class a b c :
  concat_chunks a b = Ok c → class_of c = class_of a.
Proof.
  unfold concat_chunks. intros H.
  apply res_bind_ok in H as (name & _ & [= <-]). reflexivity.
Qed.

Lemma merge_message_runs_idempotent_witness :
  merge_message_runs concat_chunks (LikeMessage <$> [human_ab; ai_c])
  = Ok [human_ab; ai_c]
  ∧ no_adjacent_run [human_ab; ai_c].
Proof.
  apply (merge_message_runs_idempotent concat_chunks concat_chunks_class
           (LikeMessage <$> [human_a; human_b; ai_c]) [human_ab; ai_c]).
  vm_compute. reflexivity.
Defined.

(** * Further properties of the module *)

(** ** trim_messages: options and strategy *)

(** X1: incompatible options are refused with [ValueError] before the
    messages are looked at: [end_on] with strategy ["last"], [start_on] with
    strategy ["first"], [keep_system] with strategy ["first"]. *)
Theorem trim_incompatible_options inputs n tc allow_partial end_on start_on
    keep_system :
  (boundary_truthy end_on = true →
   trim_messages inputs n tc "last" allow_partial end_on start_on keep_system
   = Raise ValueError)
  ∧ (boundary_truthy start_on = true →
     trim_messages inputs n tc "first" allow_partial end_on start_on
       keep_system = Raise ValueError)
  ∧ trim_messages inputs n tc "first" allow_partial end_on start_on true
    = Raise ValueError.
Proof.
  unfold trim_messages.
  rewrite (bool_decide_eq_false_2 ("first" = "last")) by discriminate.
  rewrite (bool_decide_eq_false_2 ("last" = "first")) by discriminate.
  rewrite !andb_false_r.
  repeat split.
  - intros ->. reflexivity.
  - intros ->. reflexivity.
  - destruct (boundary_truthy start_on); reflexivity.
Qed.

Lemma trim_incompatible_options_witness :
  trim_messages [LikeSeq ["nobody"]] 5 unit_cost "last" false
    (Some (BoundStr "ai")) None false = Raise ValueError.
Proof.
  apply (proj1 (trim_incompatible_options [LikeSeq ["nobody"]] 5%Z unit_cost
                  false (Some (BoundStr "ai")) None false)).
  reflexivity.
Defined.

(** X2: a strategy other than ["first"] and ["last"] never gives a result:
    the call fails with the error of the normalisation when an input does
    not normalise, and with [ValueError] otherwise. *)
Theorem trim_unrecognized_strategy inputs n tc strategy allow_partial end_on
    start_on keep_system :
  strategy ≠ "first" → strategy ≠ "last" →
  (∀ out, trim_messages inputs n tc strategy allow_partial end_on start_on
            keep_system ≠ Ok out)
  ∧ (∀ ms, convert_to_messages inputs = Ok ms →
       trim_messages inputs n tc strategy allow_partial end_on start_on
         keep_system = Raise ValueError)
  ∧ (∀ e, convert_to_messages inputs = Raise e →
       trim_messages inputs n tc strategy allow_partial end_on start_on
         keep_system = Raise e).
Proof.
  intros Hfirst Hlast.
  assert (Heq : trim_messages inputs n tc strategy allow_partial end_on
                  start_on keep_system
                = res_bind (convert_to_messages inputs)
                    (fun _ => Raise ValueError)).
  { unfold trim_messages.
    rewrite !(bool_decide_eq_false_2 (strategy = "first")) by exact Hfirst.
    rewrite !(bool_decide_eq_false_2 (strategy = "last")) by exact Hlast.
    rewrite !andb_false_r. reflexivity. }
  rewrite Heq. repeat split.
  - intros out. destruct (convert_to_messages inputs); discriminate.
  - intros ms ->. reflexivity.
  - intros e ->. reflexivity.
Qed.

Lemma trim_unrecognized_strategy_witness :
  (∀ out, trim_messages (LikeMessage <$> conversation) 2 unit_cost "middle"
            false None None false ≠ Ok out)
  ∧ (∀ ms, convert_to_messages (LikeMessage <$> conversation) = Ok ms →
       trim_messages (LikeMessage <$> conversation) 2 unit_cost "middle"
         false None None false = Raise ValueError)
  ∧ (∀ e, convert_to_messages (LikeMessage <$> conversation) = Raise e →
       trim_messages (LikeMessage <$> conversation) 2 unit_cost "middle"
         false None None false = Raise e).
Proof.
  apply (trim_unrecognized_strategy (LikeMessage <$> conversation) 2%Z
           unit_cost "middle" false None None false); discriminate.
Defined.

(** ** trim_messages and the budget *)

Lemma align_end_on_skipped end_on ms idx :
  end_on = None ∨ (∃ l, end_on = Some (BoundSeq l)) →
  align_end_on end_on ms idx = Ok idx.
Proof. intros [->|[l ->]]; reflexivity. Qed.

Lemma sum_costs_reverse (f : BaseMessage → Z) (l : list BaseMessage) :
  foldl Z.add 0%Z (f <$> reverse l) = foldl Z.add 0%Z (f <$> l).
Proof.
  induction l as [|m l IH]; [reflexivity|].
  rewrite reverse_cons, sum_costs_app, IH.
  change (m :: l) with ([m] ++ l). rewrite sum_costs_app. lia.
Qed.

Lemma first_n_within_budget ms n count allow_partial end_on out :
  end_on = None ∨ (∃ l, end_on = Some (BoundSeq l)) →
  _first_n_tokens ms n count allow_partial end_on None = Ok out →
  out = [] ∨ fits count n out = true.
Proof.
  intros Hskip. unfold _first_n_tokens. simpl default.
  destruct (search_idx_spec count n ms) as (Hle & Hfit & _).
  set (idx := search_idx count n ms) in *.
  intros H. apply res_bind_ok in H as ([ms' idx'] & Hpartial & H).
  rewrite (align_end_on_skipped _ _ _ Hskip) in H. injection H as <-.
  assert (Hsame : ms' = ms ∧ idx' = idx →
                  take idx' ms' = [] ∨ fits count n (take idx' ms') = true).
  { intros [-> ->]. destruct Hfit as [->|Hfit]; auto. }
  destruct (_ && _); [|injection Hpartial as <- <-; auto].
  apply include_partial_shape in Hpartial
    as [Hunchanged|(orig & e & Hidx & _ & -> & -> & Hfits)]; [auto|].
  right. apply lookup_lt_Some in Hidx.
  rewrite take_ge by (rewrite length_app, length_take; simpl; lia).
  exact Hfits.
Qed.

Lemma last_n_no_keep ms n count allow_partial start_on :
  _last_n_tokens ms n count allow_partial false start_on
  = res_bind
      (_first_n_tokens (reverse ms) n count allow_partial start_on None)
      (fun r => Ok (reverse r)).
Proof. reflexivity. Qed.

(** X3: the result respects the budget.  When no boundary walk is done,
    a non-empty result of strategy ["first"] is accepted by the counter;
    with strategy ["last"] and [keep_system] unset the counter accepts the
    result read backwards, which for a per-message counter is the same. *)
Theorem trim_within_budget inputs n tc allow_partial boundary out :
  boundary = None ∨ (∃ l, boundary = Some (BoundSeq l)) →
  (trim_messages inputs n tc "first" allow_partial boundary None false
   = Ok out →
   out = [] ∨ (list_token_counter tc out ≤ n)%Z)
  ∧ (trim_messages inputs n tc "last" allow_partial None boundary false
     = Ok out →
     out = []
     ∨ ((list_token_counter tc (reverse out) ≤ n)%Z
        ∧ ∀ f, tc = CountMessage f → (list_token_counter tc out ≤ n)%Z)).
Proof.
  intros Hskip. split; intros H.
  - rewrite trim_first in H. apply res_bind_ok in H as (ms & _ & H).
    apply (first_n_within_budget _ _ _ _ _ _ Hskip) in H as [->|Hfit]; auto.
    right. apply bool_decide_eq_true in Hfit. exact Hfit.
  - rewrite trim_last in H. apply res_bind_ok in H as (ms & _ & H).
    rewrite last_n_no_keep in H. apply res_bind_ok in H as (r & Hr & [= <-]).
    apply (first_n_within_budget _ _ _ _ _ _ Hskip) in Hr as [->|Hfit]; auto.
    right. apply bool_decide_eq_true in Hfit.
    rewrite reverse_involutive. split; [exact Hfit|].
    intros f ->. simpl in *. rewrite sum_costs_reverse. exact Hfit.
Qed.

Lemma trim_within_budget_witness :
  [two_blocks] = [] ∨ (list_token_counter size_cost [two_blocks] ≤ 2)%Z.
Proof.
  apply (proj1 (trim_within_budget
                  (LikeMessage <$> [three_blocks; human_a]) 2%Z size_cost
                  true None [two_blocks] (or_introl eq_refl))).
  vm_compute. reflexivity.
Defined.

Lemma first_n_all_fit ms n count allow_partial end_on :
  end_on = None ∨ (∃ l, end_on = Some (BoundSeq l)) →
  fits count n ms = true →
  _first_n_tokens ms n count allow_partial end_on None = Ok ms.
Proof.
  intros Hskip Hfit. unfold _first_n_tokens. simpl default.
  assert (Hidx : search_idx count n ms = length ms).
  { symmetry. apply search_idx_unique; [lia | right | intros; lia].
    rewrite take_ge by lia. exact Hfit. }
  rewrite Hidx, bool_decide_eq_false_2 by lia. cbn [andb res_bind].
  rewrite (align_end_on_skipped _ _ _ Hskip). cbn [res_bind].
  rewrite take_ge by lia. reflexivity.
Qed.

(** X4: nothing is trimmed from a sequence that fits.  When the counter
    accepts the whole sequence (with strategy ["last"]: the whole sequence
    read backwards, which is what the counter is given) and no boundary walk
    is done, trim returns the sequence unchanged, with or without
    [allow_partial]. *)
Theorem trim_all_fit ms n tc allow_partial boundary :
  boundary = None ∨ (∃ l, boundary = Some (BoundSeq l)) →
  ((list_token_counter tc ms ≤ n)%Z →
   trim_messages (LikeMessage <$> ms) n tc "first" allow_partial boundary
     None false = Ok ms)
  ∧ ((list_token_counter tc (reverse ms) ≤ n)%Z →
     trim_messages (LikeMessage <$> ms) n tc "last" allow_partial None
       boundary false = Ok ms).
Proof.
  intros Hskip. split; intros Hfit.
  - rewrite trim_first, convert_to_messages_like. cbn [res_bind].
    apply first_n_all_fit; [exact Hskip|].
    apply bool_decide_eq_true. exact Hfit.
  - rewrite trim_last, convert_to_messages_like. cbn [res_bind].
    rewrite last_n_no_keep, first_n_all_fit;
      [|exact Hskip|apply bool_decide_eq_true; exact Hfit].
    cbn [res_bind]. rewrite reverse_involutive. reflexivity.
Qed.

Lemma trim_all_fit_witness :
  trim_messages (LikeMessage <$> conversation) 4 unit_cost "last" true None
    None false = Ok conversation.
Proof.
  apply (proj2 (trim_all_fit conversation 4%Z unit_cost true None
                  (or_introl eq_refl))).
  vm_compute. discriminate.
Defined.

Lemma search_idx_mono count n n' ms :
  (n ≤ n')%Z → search_idx count n ms ≤ search_idx count n' ms.
Proof.
  intros Hn.
  destruct (search_idx_spec count n ms) as (Hle & Hfit & _).
  destruct (search_idx_spec count n' ms) as (_ & _ & Hmax').
  destruct Hfit as [->|Hfit]; [lia|].
  destruct (decide (search_idx count n ms ≤ search_idx count n' ms))
    as [Hok|Hgt]; [exact Hok|].
  specialize (Hmax' (search_idx count n ms) ltac:(lia)).
  unfold fits in *. apply bool_decide_eq_true in Hfit.
  apply bool_decide_eq_false in Hmax'. lia.
Qed.

(** X5: a larger budget never gives less.  Without partial inclusion and
    boundary walk, the result for a budget is a prefix (strategy ["first"])
    or a suffix (strategy ["last"], [keep_system] unset) of the result for
    any larger budget. *)
Theorem trim_budget_monotone ms n n' tc boundary :
  (n ≤ n')%Z →
  boundary = None ∨ (∃ l, boundary = Some (BoundSeq l)) →
  (∃ out out',
     trim_messages (LikeMessage <$> ms) n tc "first" false boundary None
       false = Ok out
     ∧ trim_messages (LikeMessage <$> ms) n' tc "first" false boundary None
         false = Ok out'
     ∧ out `prefix_of` out')
  ∧ (∃ out out',
       trim_messages (LikeMessage <$> ms) n tc "last" false None boundary
         false = Ok out
       ∧ trim_messages (LikeMessage <$> ms) n' tc "last" false None boundary
           false = Ok out'
       ∧ out `suffix_of` out').
Proof.
  intros Hn Hskip. split.
  - rewrite !trim_first, convert_to_messages_like. cbn [res_bind].
    rewrite !(first_n_plain _ _ _ _ Hskip).
    do 2 eexists. split; [reflexivity|]. split; [reflexivity|].
    pose proof (search_idx_mono (list_token_counter tc) n n' ms Hn) as Hk.
    set (k := search_idx _ n ms) in *. set (k' := search_idx _ n' ms) in *.
    exists (take (k' - k) (drop k ms)).
    rewrite take_take_drop. f_equal. lia.
  - rewrite !trim_last, convert_to_messages_like. cbn [res_bind].
    rewrite !last_n_no_keep, !(first_n_plain _ _ _ _ Hskip). cbn [res_bind].
    do 2 eexists. split; [reflexivity|]. split; [reflexivity|].
    pose proof (search_idx_mono (list_token_counter tc) n n' (reverse ms) Hn)
      as Hk.
    set (k := search_idx _ n (reverse ms)) in *.
    set (k' := search_idx _ n' (reverse ms)) in *.
    exists (reverse (drop k (take k' (reverse ms)))).
    rewrite <- reverse_app. f_equal.
    rewrite <- (take_drop k (take k' (reverse ms))) at 1.
    f_equal. rewrite take_take. f_equal. lia.
Qed.

Lemma trim_budget_monotone_witness :
  (∃ out out',
     trim_messages (LikeMessage <$> conversation) 1 unit_cost "first" false
       None None false = Ok out
     ∧ trim_messages (LikeMessage <$> conversation) 3 unit_cost "first" false
         None None false = Ok out'
     ∧ out `prefix_of` out')
  ∧ (∃ out out',
       trim_messages (LikeMessage <$> conversation) 1 unit_cost "last" false
         None None false = Ok out
       ∧ trim_messages (LikeMessage <$> conversation) 3 unit_cost "last" false
           None None false = Ok out'
       ∧ out `suffix_of` out').
Proof.
  apply (trim_budget_monotone conversation 1%Z 3%Z unit_cost None).
  - lia.
  - left. reflexivity.
Defined.

(** X6: with strategy ["last"], a per-message counter, no partial
    inclusion, no [start_on] and [keep_system] unset, trim returns the
    longest suffix whose costs sum up to at most the budget (the empty
    suffix when no non-empty one does). *)
Theorem trim_last_longest_suffix (ms : list BaseMessage) (n : Z)
    (f : BaseMessage → Z) :
  let cost l := foldl Z.add 0%Z (f <$> l) in
  ∃ k,
    trim_messages (LikeMessage <$> ms) n (CountMessage f) "last" false None
      None false = Ok (drop (length ms - k) ms)
    ∧ k ≤ length ms
    ∧ (k = 0 ∨ (cost (drop (length ms - k) ms) ≤ n)%Z)
    ∧ ∀ j, k < j ≤ length ms → (n < cost (drop (length ms - j) ms))%Z.
Proof.
  intros cost.
  set (count := list_token_counter (CountMessage f)).
  exists (search_idx count n (reverse ms)).
  destruct (search_idx_spec count n (reverse ms)) as (Hle & Hfit & Hmax).
  rewrite length_reverse in Hle, Hmax.
  assert (Hcost : ∀ j, fits count n (take j (reverse ms))
                       = bool_decide (cost (drop (length ms - j) ms) ≤ n)%Z).
  { intros j. unfold fits, count, cost. simpl.
    rewrite take_reverse, sum_costs_reverse. reflexivity. }
  split; [|split; [exact Hle|split]].
  - rewrite trim_last, convert_to_messages_like. cbn [res_bind].
    rewrite last_n_no_keep, first_n_plain by (left; reflexivity).
    cbn [res_bind]. fold count.
    rewrite take_reverse, reverse_involutive. reflexivity.
  - destruct Hfit as [H0|Hfit]; [left; exact H0|right].
    rewrite Hcost in Hfit. apply bool_decide_eq_true in Hfit. exact Hfit.
  - intros j Hj. specialize (Hmax j Hj). rewrite Hcost in Hmax.
    apply bool_decide_eq_false in Hmax. lia.
Qed.

(** ** trim_messages: when partial inclusion does nothing *)

Lemma split_on_no_sep sep s :
  contains_char sep s = false → split_on sep s = [s].
Proof.
  induction s as [|c s IH]; [reflexivity|].
  simpl. intros H. apply orb_false_iff in H as [Hc Hs].
  rewrite Hc, (IH Hs). reflexivity.
Qed.

Lemma include_partial_single_line count n ms idx :
  idx < length ms → Forall single_line ms →
  include_partial count n _default_text_splitter ms idx = Ok (ms, idx).
Proof.
  intros Hlt Hall. unfold include_partial. rewrite py_index_nat.
  destruct (lookup_lt_is_Some_2 ms idx Hlt) as [m Hm]. rewrite Hm.
  cbn [res_bind].
  destruct (proj1 (Forall_lookup _ _) Hall idx m Hm) as (s & Hs & Hline).
  rewrite Hs. cbn [boundary_text res_bind].
  destruct s as [|c t]; [reflexivity|].
  unfold _default_text_splitter. rewrite (split_on_no_sep _ _ Hline).
  reflexivity.
Qed.

Lemma first_n_single_line ms n count end_on :
  Forall single_line ms →
  _first_n_tokens ms n count true end_on None
  = _first_n_tokens ms n count false end_on None.
Proof.
  intros Hall. unfold _first_n_tokens. cbn [default].
  rewrite andb_false_r, andb_true_r.
  case_bool_decide as Hguard; [|reflexivity].
  rewrite include_partial_single_line by (exact Hall || lia).
  reflexivity.
Qed.

(** X7: [allow_partial] changes nothing when every message has string
    content without a line break: such a text splits into a single unit and
    the drop loop has no round to run. *)
Theorem trim_partial_single_line inputs ms n tc strategy end_on start_on
    keep_system :
  convert_to_messages inputs = Ok ms → Forall single_line ms →
  trim_messages inputs n tc strategy true end_on start_on keep_system
  = trim_messages inputs n tc strategy false end_on start_on keep_system.
Proof.
  intros Hconv Hall. unfold trim_messages. rewrite Hconv. cbn [res_bind].
  rewrite (first_n_single_line ms) by exact Hall.
  assert (Hlast : _last_n_tokens ms n (list_token_counter tc) true keep_system
                    start_on
                  = _last_n_tokens ms n (list_token_counter tc) false
                      keep_system start_on).
  { unfold _last_n_tokens.
    destruct (swapped_system_of keep_system ms) as [sw|e]; [|reflexivity].
    cbn [res_bind]. rewrite first_n_single_line; [reflexivity|].
    destruct sw.
    - apply Forall_app. split; [apply Forall_take, Hall|].
      apply Forall_reverse, Forall_take, Hall.
    - apply Forall_reverse, Hall. }
  rewrite Hlast. reflexivity.
Qed.

Lemma trim_partial_single_line_witness :
  trim_messages (LikeMessage <$> conversation) 2 unit_cost "last" true None
    None true
  = trim_messages (LikeMessage <$> conversation) 2 unit_cost "last" false None
      None true.
Proof.
  apply (trim_partial_single_line _ conversation).
  - reflexivity.
  - repeat constructor; eexists; split; reflexivity.
Defined.

(** ** trim_messages: when a result is returned *)

Lemma first_text_block_ok blocks :
  Forall block_ok blocks →
  ∃ r, first_text_block blocks = Ok r
       ∧ ∀ d, r = Some (BlockDict d) → is_Some (d !! "text").
Proof.
  induction 1 as [|b blocks Hb _ IH]; simpl.
  - eexists. split; [reflexivity | discriminate].
  - destruct b as [s|d].
    + eexists. split; [reflexivity | discriminate].
    + destruct Hb as (t & -> & Htext).
      case_bool_decide as Ht; [|exact IH].
      eexists. split; [reflexivity|]. intros d' [= <-]. auto.
Qed.

Lemma boundary_text_ok m :
  content_ok m → ∃ t, boundary_text (msg_content m) = Ok t.
Proof.
  unfold content_ok, boundary_text.
  destruct (msg_content m) as [s|blocks]; [eauto|].
  intros Hok. destruct (first_text_block_ok blocks Hok) as (r & -> & Htext).
  cbn [res_bind]. destruct r as [[s|d]|]; eauto.
  destruct (Htext d eq_refl) as [t ->]. eauto.
Qed.

Lemma include_partial_total count n sp ms idx :
  idx < length ms → Forall content_ok ms →
  ∃ r, include_partial count n sp ms idx = Ok r.
Proof.
  intros Hlt Hall. unfold include_partial. rewrite py_index_nat.
  destruct (lookup_lt_is_Some_2 ms idx Hlt) as [m Hm]. rewrite Hm.
  cbn [res_bind].
  destruct (match msg_content m with
            | ContentStr _ => None
            | ContentList blocks => _
            end); [eauto|].
  destruct (boundary_text_ok m (proj1 (Forall_lookup _ _) Hall idx m Hm))
    as [t ->].
  cbn [res_bind]. destruct t as [[|c t]|]; eauto.
  destruct (drop_loop _ _ _ _ _ _); eauto.
Qed.

Lemma first_n_total ms n count allow_partial end_on :
  ms ≠ [] → Forall content_ok ms →
  ∃ out, _first_n_tokens ms n count allow_partial end_on None = Ok out.
Proof.
  intros Hne Hall. unfold _first_n_tokens. cbn [default].
  destruct (search_idx_spec count n ms) as (Hle & _ & _).
  set (idx := search_idx count n ms) in *.
  assert (Hwalk : ∀ ms' idx', ms' ≠ [] → idx' ≤ length ms' →
            ∃ out, res_bind (Ok (ms', idx')) (fun partial =>
                     let '(messages, idx) := partial in
                     res_bind (align_end_on end_on messages idx)
                       (fun idx => Ok (take idx messages))) = Ok out).
  { intros ms' idx' Hne' Hle'. cbn [res_bind].
    destruct (align_end_on_total end_on ms' idx' Hne' Hle') as [k ->].
    cbn [res_bind]. eauto. }
  destruct (_ && _) eqn:Hguard; [|apply Hwalk; assumption].
  apply andb_true_iff in Hguard as [Hguard _].
  apply bool_decide_eq_true in Hguard.
  destruct (include_partial_total count n _default_text_splitter ms idx
              ltac:(lia) Hall) as [[ms' idx'] Hpartial].
  rewrite Hpartial.
  apply include_partial_shape in Hpartial
    as [[-> ->]|(orig & e & _ & _ & -> & -> & _)];
    apply Hwalk; try assumption.
  - intros Hnil. apply app_eq_nil in Hnil as [_ ?]. discriminate.
  - rewrite length_app, length_take. simpl. lia.
Qed.

(** X8: on a non-empty sequence whose content blocks have the keys that
    are read (every dict block a ["type"], every text block a ["text"]),
    trim returns a result for either strategy, whatever the budget, the
    counter, [allow_partial], the boundary type and [keep_system]. *)
Theorem trim_returns ms n tc allow_partial boundary keep_system :
  ms ≠ [] → Forall content_ok ms →
  (∃ out, trim_messages (LikeMessage <$> ms) n tc "first" allow_partial
            boundary None false = Ok out)
  ∧ (∃ out, trim_messages (LikeMessage <$> ms) n tc "last" allow_partial None
              boundary keep_system = Ok out).
Proof.
  intros Hne Hall. split.
  - rewrite trim_first, convert_to_messages_like. cbn [res_bind].
    apply first_n_total; assumption.
  - rewrite trim_last, convert_to_messages_like. cbn [res_bind].
    unfold _last_n_tokens.
    destruct ms as [|m rest]; [contradiction|].
    rewrite swapped_system_of_cons. cbn [res_bind].
    set (reversed_ := if keep_system && isinstance m (MessageCls System)
                      then _ else _).
    assert (Hrev : reversed_ ≠ [] ∧ Forall content_ok reversed_).
    { unfold reversed_. destruct (_ && _).
      - split; [discriminate|].
        apply Forall_app. split; [apply Forall_take, Hall|].
        apply Forall_reverse, Forall_take, Hall.
      - split; [|apply Forall_reverse, Hall].
        rewrite reverse_cons. intros Hnil.
        apply app_eq_nil in Hnil as [_ ?]. discriminate. }
    destruct Hrev as [Hne' Hall'].
    destruct (first_n_total reversed_ n (list_token_counter tc) allow_partial
                boundary Hne' Hall') as [r ->].
    cbn [res_bind]. destruct (_ && _); eauto.
Qed.

Lemma trim_returns_witness :
  (∃ out, trim_messages (LikeMessage <$> [three_blocks; human_a]) 2 size_cost
            "first" true (Some (BoundStr "human")) None false = Ok out)
  ∧ (∃ out, trim_messages (LikeMessage <$> [three_blocks; human_a]) 2
              size_cost "last" true None (Some (BoundStr "human")) true
            = Ok out).
Proof.
  apply (trim_returns [three_blocks; human_a] 2%Z size_cost true
           (Some (BoundStr "human")) true).
  - discriminate.
  - constructor; [|constructor; [exact I | constructor]].
    unfold content_ok. simpl.
    repeat (constructor;
            [eexists; split; [reflexivity | intros _; eexists; reflexivity]|]).
    constructor.
Defined.

(** ** filter_messages: order and composition *)

Lemma list_filter_sublist {A} (f : A → bool) (l : list A) :
  List.filter f l `sublist_of` l.
Proof.
  induction l as [|x l IH]; simpl; [constructor|].
  destruct (f x); [apply sublist_skip | apply sublist_cons]; exact IH.
Qed.

Lemma list_filter_idempotent {A} (f : A → bool) (l : list A) :
  List.filter f (List.filter f l) = List.filter f l.
Proof.
  induction l as [|x l IH]; simpl; [reflexivity|].
  destruct (f x) eqn:Hx; simpl; [rewrite Hx, IH|]; auto.
Qed.

(** X9: filter_messages only removes messages: its result is a sublist of
    the normalised input, in the input's order, and filtering the result
    again with the same criteria changes nothing. *)
Theorem filter_sublist_idempotent inputs out
    incl_names excl_names incl_types excl_types incl_ids excl_ids :
  filter_messages inputs incl_names excl_names incl_types excl_types
    incl_ids excl_ids = Ok out →
  (∃ ms, convert_to_messages inputs = Ok ms ∧ out `sublist_of` ms)
  ∧ filter_messages (LikeMessage <$> out) incl_names excl_names incl_types
      excl_types incl_ids excl_ids = Ok out.
Proof.
  unfold filter_messages. intros H.
  apply res_bind_ok in H as (ms & Hconv & [= <-]). split.
  - exists ms. split; [exact Hconv | apply list_filter_sublist].
  - rewrite convert_to_messages_like. cbn [res_bind].
    rewrite list_filter_idempotent. reflexivity.
Qed.

Lemma filter_sublist_idempotent_witness :
  (∃ ms, convert_to_messages (LikeMessage <$> conversation) = Ok ms
         ∧ [human_a; human_b; human_c] `sublist_of` ms)
  ∧ filter_messages (LikeMessage <$> [human_a; human_b; human_c]) None None
      (Some [TypeLabel "human"]) None None None
    = Ok [human_a; human_b; human_c].
Proof.
  apply (filter_sublist_idempotent (LikeMessage <$> conversation)
           [human_a; human_b; human_c] None None (Some [TypeLabel "human"])
           None None None).
  vm_compute. reflexivity.
Defined.

Lemma msg_type_plain_label m v :
  bool_decide (msg_type m ∈ [plain_label v])
  = bool_decide (msg_variant m = v) && negb (msg_is_chunk m).
Proof.
  destruct m as [w chunk ? ? ? ? ? ? ?]. unfold msg_type. simpl.
  destruct w, chunk, v; vm_compute; reflexivity.
Qed.

(** X10: including by class and including by label differ on chunks.  With
    the class of a variant as the only criterion, filter keeps exactly the
    messages of that variant, chunks too; with the label of the variant it
    keeps exactly the messages of that variant that are not chunks. *)
Theorem filter_by_class_and_by_label (ms : list BaseMessage) (v : variant) :
  filter_messages (LikeMessage <$> ms) None None
    (Some [TypeClass (MessageCls v)]) None None None
  = Ok (List.filter (fun m => bool_decide (msg_variant m = v)) ms)
  ∧ filter_messages (LikeMessage <$> ms) None None
      (Some [TypeLabel (plain_label v)]) None None None
    = Ok (List.filter
            (fun m => bool_decide (msg_variant m = v) && negb (msg_is_chunk m))
            ms).
Proof.
  unfold filter_messages. rewrite convert_to_messages_like. cbn [res_bind].
  split; f_equal; apply filter_ext; intros m;
    unfold excluded, included; cbv zeta; rewrite !opt_in_none_r;
    change (types_str None) with (@nil string);
    change (types_types None) with (@nil msg_class);
    rewrite (bool_decide_eq_false_2 (msg_type m ∈ [])) by apply not_elem_of_nil;
    cbn [existsb].
  - change (types_str (Some [TypeClass (MessageCls v)])) with (@nil string).
    change (types_types (Some [TypeClass (MessageCls v)]))
      with [MessageCls v].
    rewrite (bool_decide_eq_false_2 (msg_type m ∈ [])) by apply not_elem_of_nil.
    cbn [existsb isinstance]. rewrite orb_false_r.
    destruct (bool_decide (msg_variant m = v)); reflexivity.
  - change (types_str (Some [TypeLabel (plain_label v)]))
      with [plain_label v].
    rewrite msg_type_plain_label.
    destruct (bool_decide (msg_variant m = v) && negb (msg_is_chunk m));
      reflexivity.
Qed.

(** ** Normalisation *)

Lemma res_map_ok {A B} (f : A → res B) (l : list A) (r : list B) :
  res_map f l = Ok r ↔ Forall2 (fun x y => f x = Ok y) l r.
Proof.
  revert r. induction l as [|x l IH]; intros r; simpl.
  - split; [intros [= <-]; constructor | intros H; inversion H; reflexivity].
  - split.
    + intros H. apply res_bind_ok in H as (y & Hy & H).
      apply res_bind_ok in H as (ys & Hys & [= <-]).
      constructor; [exact Hy | apply IH, Hys].
    + intros H. inversion H as [|? y ? ys Hy Hys]; subst.
      rewrite Hy. cbn [res_bind].
      rewrite (proj2 (IH ys) Hys). reflexivity.
Qed.

Lemma res_map_raise {A B} (f : A → res B) (l : list A) (e : exn) :
  res_map f l = Raise e → ∃ x, x ∈ l ∧ f x = Raise e.
Proof.
  induction l as [|x l IH]; simpl; [discriminate|].
  destruct (f x) as [y|e'] eqn:Hx; cbn [res_bind].
  - destruct (res_map f l) as [ys|e'']; cbn [res_bind]; [discriminate|].
    intros [= ->]. destruct (IH eq_refl) as (x' & Hin & Hx').
    exists x'. split; [right; exact Hin | exact Hx'].
  - intros [= ->]. exists x. split; [left | exact Hx].
Qed.

(** X11: convert_to_messages converts element by element: it returns [ms]
    exactly when every input converts to the message at the same position
    of [ms] (so lengths and order agree), and an error it raises is the
    error of one of its inputs. *)
Theorem convert_to_messages_pointwise inputs :
  (∀ ms, convert_to_messages inputs = Ok ms
         ↔ Forall2 (fun i m => _convert_to_message i = Ok m) inputs ms)
  ∧ (∀ ms, convert_to_messages inputs = Ok ms → length ms = length inputs)
  ∧ (∀ e, convert_to_messages inputs = Raise e →
       ∃ i, i ∈ inputs ∧ _convert_to_message i = Raise e).
Proof.
  unfold convert_to_messages. split; [|split].
  - intros ms. apply res_map_ok.
  - intros ms H. apply res_map_ok, Forall2_length in H. lia.
  - intros e. apply res_map_raise.
Qed.

(** Membership of a string in an explicit list, from membership in an
    explicit shorter one. *)
Ltac solve_label_in :=
  repeat match goal with
         | H : _ ∈ _ :: _ |- _ => apply elem_of_cons in H as [->|H]
         | H : _ ∈ [] |- _ => apply elem_of_nil in H; destruct H
         | H : _ = _ |- _ => subst
         end;
  repeat first [apply list_elem_of_here | apply list_elem_of_further].

Lemma construct_ok v chunk data m :
  construct v chunk data = Ok m →
  required_fields_given v data = true
  ∧ m = mkMessage v chunk (f_content data) (f_name data) (f_id data)
          (f_role data) (f_tool_call_id data)
          (if chunk && bool_decide (v = AI) then [] else f_tool_calls data)
          (f_additional_kwargs data).
Proof.
  unfold construct. destruct (required_fields_given v data); [|discriminate].
  intros [= <-]. auto.
Qed.

Lemma create_message_fields message_type content name tool_call_id tool_calls
    id kwargs m :
  _create_message_from_message_type message_type content name tool_call_id
    tool_calls id kwargs = Ok m →
  role_variant message_type = Some (msg_variant m)
  ∧ m = mkMessage (msg_variant m) false content name id None tool_call_id
          (default [] tool_calls) kwargs.
Proof.
  unfold _create_message_from_message_type, role_variant.
  repeat case_bool_decide; try discriminate;
    intros Hok; apply construct_ok in Hok as [_ ->]; split; reflexivity.
Qed.

(** X12: the role string decides the variant, and the constructor checks
    the required field.  Any string other than human, user, ai, assistant,
    system, function and tool is a [ValueError]; a function message without
    name and a tool message without tool_call_id are a [ValidationError]; and
    a message is created when the role string is one of the seven, a
    function message is given its name, a tool message its tool_call_id, and
    no tool calls are passed.  The message is never a chunk nor a chat
    message, it carries the given content, name and id, and creating a
    message from its own type label and the same arguments gives the same
    message again. *)
Theorem create_message_canonical message_type content name tool_call_id
    tool_calls id kwargs :
  (message_type
     ∉ ["human"; "user"; "ai"; "assistant"; "system"; "function"; "tool"] →
   _create_message_from_message_type message_type content name tool_call_id
     tool_calls id kwargs = Raise ValueError)
  ∧ (message_type = "function" → name = None →
     _create_message_from_message_type message_type content name tool_call_id
       tool_calls id kwargs = Raise ValidationError)
  ∧ (message_type = "tool" → tool_call_id = None →
     _create_message_from_message_type message_type content name tool_call_id
       tool_calls id kwargs = Raise ValidationError)
  ∧ (message_type
       ∈ ["human"; "user"; "ai"; "assistant"; "system"; "function"; "tool"] →
     (message_type = "function" → is_Some name) →
     (message_type = "tool" → is_Some tool_call_id) →
     tool_calls = None →
     ∃ m, _create_message_from_message_type message_type content name
            tool_call_id tool_calls id kwargs = Ok m)
  ∧ (∀ m,
       _create_message_from_message_type message_type content name
         tool_call_id tool_calls id kwargs = Ok m →
       message_type
         ∈ ["human"; "user"; "ai"; "assistant"; "system"; "function"; "tool"]
       ∧ msg_is_chunk m = false ∧ msg_variant m ≠ Chat
       ∧ msg_content m = content ∧ msg_name m = name ∧ msg_id m = id
       ∧ _create_message_from_message_type (msg_type m) content name
           tool_call_id tool_calls id kwargs = Ok m).
Proof.
  split; [|split; [|split; [|split]]].
  - intros Hnot. unfold _create_message_from_message_type.
    repeat (case_bool_decide;
            [exfalso; apply Hnot; clear Hnot; solve_label_in|]).
    reflexivity.
  - intros -> ->. reflexivity.
  - intros -> ->. reflexivity.
  - intros Hin Hname Htool _. unfold _create_message_from_message_type.
    repeat (let Hcase := fresh "Hcase" in
            destruct (bool_decide _) eqn:Hcase;
            [apply bool_decide_eq_true in Hcase|
             apply bool_decide_eq_false in Hcase]);
      try match goal with
          | Hf : message_type = "function" |- _ =>
              destruct (Hname Hf) as [x ->]
          | Ht : message_type = "tool" |- _ =>
              destruct (Htool Ht) as [x ->]
          end;
      try (eexists; reflexivity).
    exfalso.
    repeat (apply elem_of_cons in Hin as [->|Hin]);
      try (apply elem_of_nil in Hin; destruct Hin);
      first [congruence
            |match goal with
             | Hn : _ ∉ _ |- _ =>
                 apply Hn;
                 solve [repeat first [apply list_elem_of_here
                                     |apply list_elem_of_further]]
             end].
  - intros m. unfold _create_message_from_message_type at 1.
    repeat (destruct (bool_decide _) eqn:Hcase;
            [apply bool_decide_eq_true in Hcase; intros Hok;
             pose proof Hok as Hok';
             apply construct_ok in Hok as [_ ->];
             (split; [solve_label_in|]);
             repeat split;
             first [reflexivity | discriminate | exact Hok']
            |clear Hcase]).
    discriminate.
Qed.

Lemma create_message_canonical_witness :
  ∃ m, _create_message_from_message_type "tool" (ContentStr "x") None
         (Some "call_1") None None ∅ = Ok m.
Proof.
  apply (proj1 (proj2 (proj2 (proj2
           (create_message_canonical "tool" (ContentStr "x") None
              (Some "call_1") None None ∅))))).
  - solve_label_in.
  - discriminate.
  - intros _. eexists. reflexivity.
  - reflexivity.
Defined.

(** X13: the shapes of a message-like input.  A dict without ["content"],
    or with neither ["role"] nor ["type"], is a [ValueError]; when both
    keys are there, ["role"] names the message type and ["type"] ends up
    in the additional keyword arguments of the message; a dict of a role and
    string content alone converts like the pair of the two, a string like
    the pair of ["human"] and the string, and a sequence that is not a
    pair is a [NotImplementedError]. *)
Theorem convert_message_shapes :
  (∀ d, d_content d = None →
        _convert_to_message (LikeDict d) = Raise ValueError)
  ∧ (∀ d, d_role d = None → d_type d = None →
          _convert_to_message (LikeDict d) = Raise ValueError)
  ∧ (∀ d r t m, d_role d = Some r → d_type d = Some t →
       _convert_to_message (LikeDict d) = Ok m →
       role_variant r = Some (msg_variant m)
       ∧ msg_additional_kwargs m !! "type" = Some t)
  ∧ (∀ r c,
       _convert_to_message
         (LikeDict (mkDict (Some r) None (Some (ContentStr c)) None None None
                      None ∅))
       = _convert_to_message (LikeSeq [r; c]))
  ∧ (∀ s, _convert_to_message (LikeStr s)
          = _convert_to_message (LikeSeq ["human"; s]))
  ∧ (∀ l, length l ≠ 2 →
          _convert_to_message (LikeSeq l) = Raise NotImplementedError).
Proof.
  split; [|split; [|split; [|split; [|split]]]].
  - intros d Hc. simpl. rewrite Hc.
    destruct (d_role d), (d_type d); reflexivity.
  - intros d Hr Ht. simpl. rewrite Hr, Ht. reflexivity.
  - intros d r t m Hr Ht Hm. simpl in Hm. rewrite Hr, Ht in Hm.
    destruct (d_content d) as [c|]; [|discriminate].
    apply create_message_fields in Hm as [Hv Hfields].
    split; [exact Hv|]. rewrite Hfields. simpl. apply lookup_insert_eq.
  - reflexivity.
  - reflexivity.
  - intros l Hlen. destruct l as [|a [|b [|c l]]]; try reflexivity.
    simpl in Hlen. lia.
Qed.

Lemma convert_message_shapes_witness :
  _convert_to_message (LikeSeq ["system"]) = Raise NotImplementedError.
Proof.
  apply (proj2 (proj2 (proj2 (proj2 (proj2 convert_message_shapes))))).
  simpl. lia.
Defined.

(** ** Messages and chunks *)

(** X14: a message and its chunk.  [_msg_to_chunk] turns every message
    into the chunk of the same variant with the same content, name, id, role,
    tool_call_id and additional keyword arguments, and leaves a chunk as it
    is; the tool calls are kept except those of a plain AI message, whose
    chunk has none.  [_chunk_to_msg] brings the chunk of a plain message back
    to that message without its tool calls when it is an AI message with
    tool calls, and to the message itself otherwise; it refuses a plain
    message with [ValueError]. *)
Theorem msg_chunk_round_trip (m : BaseMessage) :
  (∃ c, _msg_to_chunk m = Ok c
        ∧ msg_is_chunk c = true ∧ msg_variant c = msg_variant m
        ∧ msg_content c = msg_content m ∧ msg_name c = msg_name m
        ∧ msg_id c = msg_id m ∧ msg_role c = msg_role m
        ∧ msg_tool_call_id c = msg_tool_call_id m
        ∧ msg_additional_kwargs c = msg_additional_kwargs m
        ∧ msg_tool_calls c
          = (if bool_decide (msg_variant m = AI) && negb (msg_is_chunk m)
             then [] else msg_tool_calls m)
        ∧ (msg_is_chunk m = false →
           _chunk_to_msg c
           = Ok (if bool_decide (msg_variant m = AI) then without_tool_calls m
                 else m)))
  ∧ (msg_is_chunk m = false →
     (msg_variant m = AI → msg_tool_calls m = []) →
     res_bind (_msg_to_chunk m) _chunk_to_msg = Ok m)
  ∧ (msg_is_chunk m = true → _msg_to_chunk m = Ok m)
  ∧ (msg_is_chunk m = false → _chunk_to_msg m = Raise ValueError).
Proof.
  destruct m as [v chunk c nm i r t tc kw].
  split; [|split; [|split]].
  - destruct v, chunk; eexists; (split; [reflexivity|]);
      repeat split; (reflexivity || discriminate).
  - cbn [msg_is_chunk msg_variant msg_tool_calls]. intros -> Htc.
    destruct v; try reflexivity.
    rewrite (Htc eq_refl). reflexivity.
  - cbn [msg_is_chunk]. intros ->. destruct v; reflexivity.
  - cbn [msg_is_chunk]. intros ->. destruct v; reflexivity.
Qed.

Lemma msg_chunk_round_trip_witness :
  res_bind (_msg_to_chunk human_a) _chunk_to_msg = Ok human_a.
Proof.
  apply (proj1 (proj2 (msg_chunk_round_trip human_a))).
  - reflexivity.
  - discriminate.
Defined.

(** The tool calls of a plain AI message do not survive the way through
    its chunk. *)
Example msg_chunk_drops_tool_calls :
  res_bind (_msg_to_chunk ai_with_call) _chunk_to_msg
  = Ok (without_tool_calls ai_with_call)
  ∧ without_tool_calls ai_with_call ≠ ai_with_call.
Proof. split; [reflexivity | discriminate]. Qed.

(** X15: message_chunk_to_message gives a plain message of the same
    variant with the same fields; it leaves plain messages alone, applying
    it twice is the same as applying it once, and on a chunk it agrees with
    [_chunk_to_msg]. *)
Theorem message_chunk_to_message_plain (chunk : BaseMessage) :
  msg_is_chunk (message_chunk_to_message chunk) = false
  ∧ msg_variant (message_chunk_to_message chunk) = msg_variant chunk
  ∧ fields_of (message_chunk_to_message chunk) = fields_of chunk
  ∧ message_chunk_to_message (message_chunk_to_message chunk)
    = message_chunk_to_message chunk
  ∧ (msg_is_chunk chunk = false → message_chunk_to_message chunk = chunk)
  ∧ (msg_is_chunk chunk = true →
     _chunk_to_msg chunk = Ok (message_chunk_to_message chunk)).
Proof.
  destruct chunk as [v chunk c nm i r t tc kw].
  destruct v, chunk; repeat split; (reflexivity || discriminate).
Qed.

Lemma message_chunk_to_message_plain_witness :
  _chunk_to_msg human_chunk_a = Ok (message_chunk_to_message human_chunk_a).
Proof.
  apply (message_chunk_to_message_plain human_chunk_a). reflexivity.
Defined.

(** ** messages_from_dict *)

(** X16: loading a stored message.  A dict without ["type"] is a
    [KeyError]; a type label that is not one of the twelve labels is a
    [ValueError], whether or not ["data"] is there; data that lacks the
    field its class requires, as a chat message without role, is a
    [ValidationError].  A message that is loaded has the stored label as its
    type and is what the constructor of that class makes of the stored data;
    and loading the type label and the fields of a message that its
    constructor accepts gives that message back. *)
Theorem message_from_dict_round_trip :
  (∀ data, _message_from_dict (mkStored None data) = Raise KeyError)
  ∧ (∀ t data,
       t ∉ ["human"; "ai"; "system"; "chat"; "function"; "tool";
            "AIMessageChunk"; "HumanMessageChunk"; "FunctionMessageChunk";
            "ToolMessageChunk"; "SystemMessageChunk"; "ChatMessageChunk"] →
       _message_from_dict (mkStored (Some t) data) = Raise ValueError)
  ∧ (∀ data, f_role data = None →
       _message_from_dict (mkStored (Some "chat") (Some data))
       = Raise ValidationError)
  ∧ (∀ message m,
       _message_from_dict message = Ok m →
       s_type message = Some (msg_type m)
       ∧ (∃ data, s_data message = Some data
                  ∧ construct (msg_variant m) (msg_is_chunk m) data = Ok m)
       ∧ valid_message m)
  ∧ (∀ m, valid_message m →
       _message_from_dict (mkStored (Some (msg_type m)) (Some (fields_of m)))
       = Ok m).
Proof.
  split; [reflexivity|]. split; [|split; [|split]].
  - intros t data Hnot. unfold _message_from_dict. cbn [s_type].
    repeat (case_bool_decide;
            [exfalso; apply Hnot; clear Hnot; solve_label_in|]).
    reflexivity.
  - intros data Hrole. unfold _message_from_dict, construct. simpl.
    rewrite Hrole. reflexivity.
  - intros [[t|] data] m; [|discriminate].
    unfold _message_from_dict. cbn [s_type s_data].
    repeat (destruct (bool_decide _) eqn:Hcase;
            [apply bool_decide_eq_true in Hcase; subst t;
             destruct data as [d|]; [|intros [=]];
             intros Hok; pose proof Hok as Hok';
             apply construct_ok in Hok as [Hreq ->];
             split; [reflexivity|];
             split; [exists d; split; [reflexivity | exact Hok']|];
             split; [exact Hreq | intros; (reflexivity || discriminate)]
            |clear Hcase]).
    discriminate.
  - intros [v chunk c nm i r t tc kw] [Hreq Hcalls].
    cbn in Hreq, Hcalls.
    destruct v, chunk; unfold _message_from_dict, construct;
      cbn -[bool_decide]; cbn in Hreq; rewrite ?Hreq; try reflexivity.
    rewrite (Hcalls eq_refl eq_refl). reflexivity.
Qed.

Lemma message_from_dict_round_trip_witness :
  _message_from_dict (mkStored (Some (msg_type chat_x))
                        (Some (fields_of chat_x))) = Ok chat_x.
Proof.
  apply (proj2 (proj2 (proj2 (proj2 message_from_dict_round_trip))) chat_x).
  split; [reflexivity | discriminate].
Defined.

(** messages_from_dict loads element by element. *)
Lemma messages_from_dict_pointwise messages ms :
  messages_from_dict messages = Ok ms
  ↔ Forall2 (fun d m => _message_from_dict d = Ok m) messages ms.
Proof. apply res_map_ok. Qed.

(** ** merge_message_runs: what is and what is not merged *)

(** X17: a sequence in which no message is an instance of the class of the
    message before it is returned unchanged, whatever the merge operation of
    chunks does: it is never called. *)
Theorem merge_no_run_identity
    (chunk_add : BaseMessage → BaseMessage → res BaseMessage)
    (ms : list BaseMessage) :
  no_adjacent_run ms →
  merge_message_runs chunk_add (LikeMessage <$> ms) = Ok ms.
Proof.
  intros Hrun. destruct ms as [|m rest]; [reflexivity|].
  unfold merge_message_runs. rewrite fmap_cons, <- fmap_cons.
  rewrite convert_to_messages_like. cbn [res_bind].
  apply (merge_loop_no_run chunk_add rest [m]); [discriminate | exact Hrun].
Qed.

Lemma merge_no_run_identity_witness :
  merge_message_runs (fun _ _ => Raise ValueError)
    (LikeMessage <$> [human_chunk_a; human_a; ai_c])
  = Ok [human_chunk_a; human_a; ai_c].
Proof.
  apply (merge_no_run_identity (fun _ _ => Raise ValueError)
           [human_chunk_a; human_a; ai_c]).
  simpl. auto.
Defined.

Lemma compress_cons (a b : variant) (l : list variant) :
  compress (a :: b :: l)
  = if bool_decide (a = b) then compress (b :: l) else a :: compress (b :: l).
Proof. reflexivity. Qed.

Lemma compress_length (l : list variant) : length (compress l) ≤ length l.
Proof.
  induction l as [|a l IH]; [reflexivity|].
  destruct l as [|b l]; [reflexivity|].
  rewrite compress_cons.
  destruct (bool_decide (a = b)); simpl in *; lia.
Qed.

Lemma isinstance_class_of_plain a b :
  msg_is_chunk a = false →
  isinstance b (class_of a) = bool_decide (msg_variant b = msg_variant a).
Proof. intros Ha. unfold class_of. rewrite Ha. reflexivity. Qed.

Section merge_plain.
Variable chunk_add : BaseMessage → BaseMessage → res BaseMessage.
Hypothesis chunk_add_class :
  ∀ a b c, chunk_add a b = Ok c → class_of c = class_of a.

Lemma merge_step_plain init l msg merged' :
  msg_is_chunk l = false →
  merge_step chunk_add (init ++ [l]) msg = Ok merged' →
  (msg_variant msg ≠ msg_variant l ∧ merged' = init ++ [l; msg])
  ∨ (msg_variant msg = msg_variant l
     ∧ ∃ m, merged' = init ++ [m] ∧ msg_variant m = msg_variant l
            ∧ msg_is_chunk m = false).
Proof.
  intros Hl. rewrite merge_step_snoc, isinstance_class_of_plain by exact Hl.
  case_bool_decide as Hv; simpl.
  - intros H. right. split; [exact Hv|].
    apply res_bind_ok in H as (a & Ha & H).
    apply res_bind_ok in H as (b & _ & H).
    apply res_bind_ok in H as (sum & Hsum & H).
    apply res_bind_ok in H as (m & Hm & [= <-]).
    exists m. split; [reflexivity|].
    apply chunk_add_class in Hsum.
    destruct (msg_to_chunk_class l) as (a' & Ha' & Hclass).
    rewrite Ha in Ha'. injection Ha' as <-. rewrite Hclass in Hsum.
    apply chunk_to_msg_class in Hm as [Hmv Hplain].
    split; [|exact Hplain].
    rewrite Hmv. unfold class_of in Hsum.
    destruct (msg_is_chunk sum); congruence.
  - intros [= <-]. left. auto.
Qed.

Lemma merge_loop_plain rest init l out :
  msg_is_chunk l = false → Forall (fun m => msg_is_chunk m = false) init →
  Forall (fun m => msg_is_chunk m = false) rest →
  merge_loop chunk_add (init ++ [l]) rest = Ok out →
  Forall (fun m => msg_is_chunk m = false) out
  ∧ msg_variant <$> out
    = (msg_variant <$> init)
      ++ compress (msg_variant l :: (msg_variant <$> rest)).
Proof.
  revert init l. induction rest as [|msg rest IH];
    intros init l Hl Hinit Hrest H.
  - injection H as <-. split.
    + apply Forall_app. split; [exact Hinit | constructor; auto].
    + rewrite fmap_app. reflexivity.
  - cbn [merge_loop] in H. apply res_bind_ok in H as (merged' & Hstep & H).
    apply Forall_cons in Hrest as [Hmsg Hrest].
    apply (merge_step_plain _ _ _ _ Hl) in Hstep
      as [[Hv ->]|(Hv & m & -> & Hmv & Hm)].
    + replace (init ++ [l; msg]) with ((init ++ [l]) ++ [msg]) in H
        by (rewrite <- app_assoc; reflexivity).
      apply IH in H as [Hout Hvs]; [|exact Hmsg| |exact Hrest].
      * split; [exact Hout|]. rewrite Hvs, fmap_app, <- app_assoc.
        f_equal. rewrite !fmap_cons, compress_cons.
        rewrite bool_decide_eq_false_2 by congruence. reflexivity.
      * apply Forall_app. split; [exact Hinit | constructor; auto].
    + apply IH in H as [Hout Hvs]; [|exact Hm|exact Hinit|exact Hrest].
      split; [exact Hout|]. rewrite Hvs, Hmv. f_equal.
      rewrite fmap_cons, compress_cons.
      rewrite bool_decide_eq_true_2 by congruence. rewrite Hv. reflexivity.
Qed.

(** X18: on messages that are not chunks, merge_message_runs returns one
    message per maximal run of one variant: the variants of the output are
    the variants of the input with every run of equal neighbours reduced to
    one, no output message is a chunk, and the output is not longer than the
    input. *)
Theorem merge_plain_runs ms out :
  Forall (fun m => msg_is_chunk m = false) ms →
  merge_message_runs chunk_add (LikeMessage <$> ms) = Ok out →
  msg_variant <$> out = compress (msg_variant <$> ms)
  ∧ Forall (fun m => msg_is_chunk m = false) out
  ∧ length out ≤ length ms.
Proof.
  intros Hplain H.
  assert (Hmain : msg_variant <$> out = compress (msg_variant <$> ms)
                  ∧ Forall (fun m => msg_is_chunk m = false) out).
  { destruct ms as [|m rest]; [injection H as <-; split; [reflexivity|constructor]|].
    unfold merge_message_runs in H. rewrite fmap_cons, <- fmap_cons in H.
    rewrite convert_to_messages_like in H. cbn [res_bind] in H.
    apply Forall_cons in Hplain as [Hm Hrest].
    apply (merge_loop_plain rest [] m out Hm) in H as [Hout Hvs];
      [|constructor|exact Hrest].
    split; [exact Hvs | exact Hout]. }
  destruct Hmain as [Hvs Hout]. repeat split; [exact Hvs | exact Hout |].
  rewrite <- (length_fmap msg_variant out), Hvs,
    <- (length_fmap msg_variant ms).
  apply compress_length.
Qed.
End merge_plain.

Lemma merge_plain_runs_witness :
  msg_variant <$> [human_ab; ai_c]
  = compress (msg_variant <$> [human_a; human_b; ai_c])
  ∧ Forall (fun m => msg_is_chunk m = false) [human_ab; ai_c]
  ∧ length [human_ab; ai_c] ≤ length [human_a; human_b; ai_c].
Proof.
  apply (merge_plain_runs concat_chunks concat_chunks_class
           [human_a; human_b; ai_c] [human_ab; ai_c]).
  - repeat constructor.
  - vm_compute. reflexivity.
Defined.

(** ** The text splitter and get_buffer_string *)

Lemma split_on_nonempty sep s : split_on sep s ≠ [].
Proof.
  destruct s as [|c s]; simpl; [discriminate|].
  case_bool_decide; [discriminate|].
  destruct (split_on sep s); discriminate.
Qed.

Lemma join_cons_nonempty sep p q rest :
  join sep (p :: q :: rest) = p +:+ sep +:+ join sep (q :: rest).
Proof. reflexivity. Qed.

Lemma join_split_on (s : string) :
  join newline (split_on "010"%char s) = s.
Proof.
  induction s as [|c s IH]; [reflexivity|].
  cbn [split_on]. case_bool_decide as Hc.
  - subst c. destruct (split_on "010"%char s) as [|w ws] eqn:Hs.
    + exfalso. exact (split_on_nonempty _ _ Hs).
    + rewrite join_cons_nonempty, IH. reflexivity.
  - destruct (split_on "010"%char s) as [|w ws] eqn:Hs.
    + exfalso. exact (split_on_nonempty _ _ Hs).
    + destruct ws as [|w' ws].
      * simpl in *. rewrite IH. reflexivity.
      * rewrite join_cons_nonempty. rewrite join_cons_nonempty in IH.
        rewrite <- IH. reflexivity.
Qed.

Lemma split_on_pieces sep s :
  Forall (fun p => contains_char sep p = false) (split_on sep s).
Proof.
  induction s as [|c s IH]; simpl; [repeat constructor|].
  case_bool_decide as Hc; [constructor; [reflexivity | exact IH]|].
  destruct (split_on sep s) as [|w ws]; [repeat constructor|].
  - simpl. rewrite bool_decide_eq_false_2 by exact Hc. reflexivity.
  - apply Forall_cons in IH as [Hw Hws]. constructor; [|exact Hws].
    simpl. rewrite bool_decide_eq_false_2 by exact Hc. exact Hw.
Qed.

Lemma split_on_app_sep sep p s :
  contains_char sep p = false →
  split_on sep (p +:+ String sep s) = p :: split_on sep s.
Proof.
  induction p as [|c p IH]; intros Hp.
  - simpl. rewrite bool_decide_eq_true_2 by reflexivity. reflexivity.
  - simpl in Hp. apply orb_false_iff in Hp as [Hc Hp].
    change (String c p +:+ String sep s)
      with (String c (p +:+ String sep s)).
    cbn [split_on]. rewrite Hc, (IH Hp). reflexivity.
Qed.

Lemma split_on_join (parts : list string) :
  parts ≠ [] →
  Forall (fun p => contains_char "010"%char p = false) parts →
  split_on "010"%char (join newline parts) = parts.
Proof.
  induction parts as [|p parts IH]; [contradiction|].
  intros _ Hall. apply Forall_cons in Hall as [Hp Hall].
  destruct parts as [|q parts].
  - simpl. apply split_on_no_sep, Hp.
  - rewrite join_cons_nonempty. unfold newline at 1.
    change (String "010"%char EmptyString +:+ join newline (q :: parts))
      with (String "010"%char (join newline (q :: parts))).
    rewrite (split_on_app_sep _ _ _ Hp), IH; [reflexivity|discriminate|exact Hall].
Qed.

(** X19: the default text splitter and joining with line breaks are
    inverse to each other: the pieces of a text are at least one, none
    holds a line break, and joined with line breaks they give the text back;
    and a non-empty list of pieces without line breaks is what splitting
    their join gives. *)
Theorem default_text_splitter_join :
  (∀ text,
     _default_text_splitter text ≠ []
     ∧ Forall (fun p => contains_char "010"%char p = false)
         (_default_text_splitter text)
     ∧ join newline (_default_text_splitter text) = text)
  ∧ (∀ parts, parts ≠ [] →
       Forall (fun p => contains_char "010"%char p = false) parts →
       _default_text_splitter (join newline parts) = parts).
Proof.
  unfold _default_text_splitter. split.
  - intros text. split; [apply split_on_nonempty|].
    split; [apply split_on_pieces | apply join_split_on].
  - apply split_on_join.
Qed.

Lemma default_text_splitter_join_witness :
  _default_text_splitter (join newline ["ab"; ""; "cd"]) = ["ab"; ""; "cd"].
Proof.
  apply (proj2 default_text_splitter_join ["ab"; ""; "cd"]).
  - discriminate.
  - repeat constructor.
Defined.

Section buffer_string_properties.
Variable str_of_blocks : list block → string.

Lemma buffer_line_total human_prefix ai_prefix m :
  ∃ line, buffer_line str_of_blocks human_prefix ai_prefix m = Ok line.
Proof.
  unfold buffer_line. destruct m as [v chunk c nm i r t tc kw].
  destruct v; simpl; eauto.
  destruct (kw !! "function_call"); eauto.
Qed.

Lemma buffer_line_chunk human_prefix ai_prefix m :
  buffer_line str_of_blocks human_prefix ai_prefix
    (message_chunk_to_message m)
  = buffer_line str_of_blocks human_prefix ai_prefix m.
Proof.
  destruct m as [v chunk c nm i r t tc kw]. destruct chunk; reflexivity.
Qed.

Lemma res_map_total {A B} (f : A → res B) (l : list A) :
  (∀ x, ∃ y, f x = Ok y) →
  ∃ r, res_map f l = Ok r ∧ length r = length l.
Proof.
  intros Hf. induction l as [|x l (r & Hr & Hlen)]; simpl.
  - exists []. auto.
  - destruct (Hf x) as [y ->]. rewrite Hr. cbn [res_bind].
    exists (y :: r). simpl. auto.
Qed.

Lemma res_map_fmap_ext {A B C} (f : B → res C) (g : A → B) (h : A → res C)
    (l : list A) :
  (∀ x, f (g x) = h x) → res_map f (g <$> l) = res_map h l.
Proof.
  intros Hext. induction l as [|x l IH]; [reflexivity|].
  rewrite fmap_cons. cbn [res_map]. rewrite Hext, IH. reflexivity.
Qed.

(** X20: get_buffer_string never fails on the message classes of this
    module; it makes one line per message, joined with line breaks, so that
    splitting the buffer of a non-empty sequence at the line breaks gives
    the lines back when none of them holds a line break; and a chunk is
    written like the plain message of the same variant. *)
Theorem get_buffer_string_lines messages human_prefix ai_prefix :
  (∃ lines,
     res_map (buffer_line str_of_blocks human_prefix ai_prefix) messages
     = Ok lines
     ∧ length lines = length messages
     ∧ get_buffer_string str_of_blocks messages human_prefix ai_prefix
       = Ok (join newline lines)
     ∧ (messages ≠ [] →
        Forall (fun p => contains_char "010"%char p = false) lines →
        _default_text_splitter (join newline lines) = lines))
  ∧ get_buffer_string str_of_blocks (message_chunk_to_message <$> messages)
      human_prefix ai_prefix
    = get_buffer_string str_of_blocks messages human_prefix ai_prefix.
Proof.
  split.
  - destruct (res_map_total
                (buffer_line str_of_blocks human_prefix ai_prefix) messages
                (buffer_line_total human_prefix ai_prefix))
      as (lines & Hlines & Hlen).
    exists lines. split; [exact Hlines|]. split; [exact Hlen|]. split.
    + unfold get_buffer_string. rewrite Hlines. reflexivity.
    + intros Hne Hall. apply split_on_join; [|exact Hall].
      intros ->. destruct messages; [contradiction | discriminate].
  - unfold get_buffer_string.
    rewrite (res_map_fmap_ext _ _
               (buffer_line str_of_blocks human_prefix ai_prefix));
      [reflexivity|].
    intros m. apply buffer_line_chunk.
Qed.
End buffer_string_properties.

(** The example of the docstring of get_buffer_string. *)
Example get_buffer_string_docstring :
  get_buffer_string (fun _ => "")
    [text_message Human "Hi, how are you?";
     text_message AI "Good, how are you?"] "Human" "AI"
  = Ok (join newline ["Human: Hi, how are you?"; "AI: Good, how are you?"]).
Proof. reflexivity. Qed.

(** ** trim_messages: a single boundary label or class *)

(** X21: when the boundary type is a single label or a single class and
    trim returns a result, the result is empty or ends on a message of that
    type (strategy ["first"], [end_on]), or begins with one (strategy
    ["last"], [start_on], [keep_system] unset). *)
Theorem trim_ends_on_boundary inputs n tc allow_partial b out :
  (∃ label, b = BoundStr label) ∨ (∃ c, b = BoundType c) →
  (trim_messages inputs n tc "first" allow_partial (Some b) None false
   = Ok out →
   out = [] ∨ ∃ m, last out = Some m ∧ matches_boundary b m)
  ∧ (trim_messages inputs n tc "last" allow_partial None (Some b) false
     = Ok out →
     out = [] ∨ ∃ m, head out = Some m ∧ matches_boundary b m).
Proof.
  intros Hb. split; intros H.
  - rewrite trim_first in H. apply res_bind_ok in H as (ms & _ & H).
    eapply first_n_end_on_single; eauto.
  - rewrite trim_last in H. apply res_bind_ok in H as (ms & _ & H).
    rewrite last_n_no_keep in H. apply res_bind_ok in H as (r & Hr & [= <-]).
    apply (first_n_end_on_single _ _ _ _ _ _ Hb) in Hr
      as [->|(m & Hlast & Hmatch)]; [left; reflexivity|].
    right. exists m. split; [|exact Hmatch].
    rewrite head_reverse. exact Hlast.
Qed.

Lemma trim_ends_on_boundary_witness :
  [sys_s; human_a] = []
  ∨ ∃ m, last [sys_s; human_a] = Some m
         ∧ matches_boundary (BoundStr "human") m.
Proof.
  apply (proj1 (trim_ends_on_boundary
                  (LikeMessage <$> [sys_s; human_a; ai_c]) 3%Z unit_cost
                  false (BoundStr "human") [sys_s; human_a]
                  (or_introl (ex_intro _ "human" eq_refl)))).
  vm_compute. reflexivity.
Defined.

(** ** filter_messages: what is returned *)

(** X22: every message that filter_messages returns is a message of the
    normalised input that matches an include criterion, its name is not an
    excluded name, its type label not an excluded label and its id not an
    excluded id, whichever include criteria it matches. *)
Theorem filter_returns_included inputs out m
    incl_names excl_names incl_types excl_types incl_ids excl_ids :
  filter_messages inputs incl_names excl_names incl_types excl_types
    incl_ids excl_ids = Ok out →
  m ∈ out →
  (∃ ms, convert_to_messages inputs = Ok ms ∧ m ∈ ms)
  ∧ (opt_in (msg_name m) incl_names = true
     ∨ msg_type m ∈ types_str incl_types
     ∨ (∃ c, c ∈ types_types incl_types ∧ isinstance m c = true)
     ∨ opt_in (msg_id m) incl_ids = true)
  ∧ opt_in (msg_name m) excl_names = false
  ∧ (msg_type m ∉ types_str excl_types)
  ∧ opt_in (msg_id m) excl_ids = false.
Proof.
  unfold filter_messages. intros H Hin.
  apply res_bind_ok in H as (ms & Hconv & [= <-]).
  apply list_elem_of_In, filter_In in Hin as [Hin Hkeep].
  split; [exists ms; split; [exact Hconv | apply list_elem_of_In, Hin]|].
  unfold excluded in Hkeep.
  destruct (opt_in (msg_name m) excl_names); [discriminate|].
  case_bool_decide as Hlabel; [discriminate|].
  destruct (existsb _ (types_types excl_types)); [discriminate|].
  destruct (opt_in (msg_id m) excl_ids); [discriminate|].
  split; [|auto]. unfold included in Hkeep.
  destruct (opt_in (msg_name m) incl_names); [auto|].
  case_bool_decide as Hincl; [auto|].
  destruct (existsb _ (types_types incl_types)) eqn:Hcls.
  - right. right. left. apply existsb_exists in Hcls as (c & Hc & Hinst).
    exists c. split; [apply list_elem_of_In, Hc | exact Hinst].
  - destruct (opt_in (msg_id m) incl_ids); [auto | discriminate].
Qed.

Lemma filter_returns_included_witness :
  (∃ ms, convert_to_messages (LikeMessage <$> [human_x; human_a]) = Ok ms
         ∧ human_a ∈ ms)
  ∧ (opt_in (msg_name human_a) None = true
     ∨ msg_type human_a ∈ types_str (Some [TypeLabel "human"])
     ∨ (∃ c, c ∈ types_types (Some [TypeLabel "human"])
             ∧ isinstance human_a c = true)
     ∨ opt_in (msg_id human_a) None = true)
  ∧ opt_in (msg_name human_a) None = false
  ∧ (msg_type human_a ∉ types_str None)
  ∧ opt_in (msg_id human_a) (Some ["x"]) = false.
Proof.
  apply (filter_returns_included (LikeMessage <$> [human_x; human_a])
           [human_a] human_a None None (Some [TypeLabel "human"]) None None
           (Some ["x"])).
  - vm_compute. reflexivity.
  - constructor.
Defined.
